(** * Verification of the content-generation bridge (server.js, part_000)

    JavaScript strings are modelled as lists of UTF-16 code units, each a
    [N] below 65536.  The JavaScript builtins the code relies on
    ([String.prototype.trim], [indexOf], [lastIndexOf], [substring],
    [replace] with a global regular expression, [JSON.parse]) are written
    out with their ECMAScript semantics. *)

From Stdlib Require Import String Ascii NArith ZArith Bool Lia List.
Import ListNotations.
Set Warnings "-register-all".


(* ------------------------------------------------------------------ *)
(** ** Code units and strings *)

Definition jstr := list N.

(** Literal helper: the code units of an ASCII Rocq string. *)
Definition js (s : string) : jstr := map N_of_ascii (list_ascii_of_string s).

(** JSON texts are written with [']' standing for the double quote. *)
Definition jq (s : string) : jstr :=
  map (fun c => if (c =? 39)%N then 34%N else c) (js s).

Definition QUOTE : N := 34.
Definition COMMA : N := 44.
Definition COLON : N := 58.
Definition SPACE : N := 32.
Definition LBRACE : N := 123.
Definition RBRACE : N := 125.
Definition LBRACKET : N := 91.
Definition RBRACKET : N := 93.
Definition BACKSLASH : N := 92.
Definition BACKTICK : N := 96.

(** The JavaScript WhiteSpace and LineTerminator code units: the set
    matched by [\s] and removed by [String.prototype.trim]. *)
Definition is_js_ws (c : N) : bool :=
  (c =? 9)%N || (c =? 10)%N || (c =? 11)%N || (c =? 12)%N || (c =? 13)%N ||
  (c =? 32)%N || (c =? 160)%N || (c =? 5760)%N ||
  ((8192 <=? c)%N && (c <=? 8202)%N) ||
  (c =? 8232)%N || (c =? 8233)%N || (c =? 8239)%N || (c =? 8287)%N ||
  (c =? 12288)%N || (c =? 65279)%N.

Fixpoint drop_js_ws (s : jstr) : jstr :=
  match s with
  | [] => []
  | c :: r => if is_js_ws c then drop_js_ws r else s
  end.

(** [String.prototype.trim]. *)
Definition trim_start (s : jstr) : jstr := drop_js_ws s.
Definition trim_end (s : jstr) : jstr := rev (drop_js_ws (rev s)).
Definition trim (s : jstr) : jstr := trim_end (trim_start s).

Fixpoint prefixb (p s : jstr) : bool :=
  match p, s with
  | [], _ => true
  | a :: p', b :: s' => (a =? b)%N && prefixb p' s'
  | _ :: _, [] => false
  end.

(** [s.replace(/<lit>\s*/g, '')] for a non-empty literal [lit]: the
    leftmost match is removed, [\s*] greedily takes the whitespace after
    the literal, and the search resumes where the match ended. *)
Fixpoint replace_ws_go (lit : jstr) (fuel : nat) (s : jstr) : jstr :=
  match fuel with
  | O => s
  | S f =>
    match s with
    | [] => []
    | c :: r =>
      if prefixb lit s then replace_ws_go lit f (drop_js_ws (skipn (length lit) s))
      else c :: replace_ws_go lit f r
    end
  end.

Definition replace_global_ws (lit s : jstr) : jstr :=
  replace_ws_go lit (S (length s)) s.

Definition FENCE : jstr := [BACKTICK; BACKTICK; BACKTICK].
Definition FENCE_JSON : jstr := FENCE ++ js "json".

(** [String.prototype.indexOf] ([-1] when absent). *)
Fixpoint index_of_from (pat s : jstr) (i : nat) : option nat :=
  if prefixb pat s then Some i
  else match s with
       | [] => None
       | _ :: r => index_of_from pat r (S i)
       end.

Definition indexOf (s pat : jstr) : Z :=
  match index_of_from pat s 0 with
  | Some i => Z.of_nat i
  | None => (-1)%Z
  end.

(** [String.prototype.lastIndexOf(pat, from)]: the position is clamped
    to [0, length], then searched downwards. *)
Fixpoint last_index_at (pat s : jstr) (k : nat) : Z :=
  if prefixb pat (skipn k s) then Z.of_nat k
  else match k with
       | O => (-1)%Z
       | S k' => last_index_at pat s k'
       end.

Definition clamp (len : nat) (z : Z) : nat :=
  Z.to_nat (Z.max 0 (Z.min z (Z.of_nat len))).

Definition lastIndexOf (s pat : jstr) (from : Z) : Z :=
  last_index_at pat s (clamp (length s) from).

(** [String.prototype.substring(a, b)]: both ends clamped, then ordered. *)
Definition substring (s : jstr) (a b : Z) : jstr :=
  let a' := clamp (length s) a in
  let b' := clamp (length s) b in
  let lo := Nat.min a' b' in
  let hi := Nat.max a' b' in
  firstn (hi - lo) (skipn lo s).

Definition jlen (s : jstr) : Z := Z.of_nat (length s).

(* ------------------------------------------------------------------ *)
(** ** JSON values and [JSON.parse] *)

(** A parsed JSON value.  Numbers keep their source lexeme (the double
    JavaScript builds is a function of it); objects keep their members in
    source order (the JavaScript object is a function of that list). *)
Inductive json : Type :=
| JNull
| JBool (b : bool)
| JNumber (lexeme : jstr)
| JString (s : jstr)
| JArray (xs : list json)
| JObject (members : list (jstr * json)).

(** JSON whitespace: space, tab, line feed, carriage return. *)
Definition is_json_ws (c : N) : bool :=
  (c =? 32)%N || (c =? 9)%N || (c =? 10)%N || (c =? 13)%N.

Fixpoint skip_json_ws (s : jstr) : jstr :=
  match s with
  | [] => []
  | c :: r => if is_json_ws c then skip_json_ws r else s
  end.

Definition is_digit (c : N) : bool := (48 <=? c)%N && (c <=? 57)%N.

Definition hex_value (c : N) : option N :=
  if is_digit c then Some (c - 48)%N
  else if (65 <=? c)%N && (c <=? 70)%N then Some (c - 55)%N
  else if (97 <=? c)%N && (c <=? 102)%N then Some (c - 87)%N
  else None.

Definition hex4 (a b c d : N) : option N :=
  match hex_value a, hex_value b, hex_value c, hex_value d with
  | Some x, Some y, Some z, Some w => Some (x * 4096 + y * 256 + z * 16 + w)%N
  | _, _, _, _ => None
  end.

(** The single-character escapes of JSON strings. *)
Definition simple_escape (e : N) : option N :=
  if (e =? 34)%N then Some 34%N
  else if (e =? 92)%N then Some 92%N
  else if (e =? 47)%N then Some 47%N
  else if (e =? 98)%N then Some 8%N
  else if (e =? 102)%N then Some 12%N
  else if (e =? 110)%N then Some 10%N
  else if (e =? 114)%N then Some 13%N
  else if (e =? 116)%N then Some 9%N
  else None.

(** The body of a string literal, after its opening quote: the decoded
    code units and the input after the closing quote. *)
Fixpoint parse_string_body (s : jstr) : option (jstr * jstr) :=
  match s with
  | [] => None
  | c :: r =>
    if (c =? QUOTE)%N then Some ([], r)
    else if (c =? BACKSLASH)%N then
      match r with
      | [] => None
      | e :: r' =>
        if (e =? 117)%N then
          match r' with
          | h1 :: h2 :: h3 :: h4 :: r'' =>
            match hex4 h1 h2 h3 h4 with
            | Some u =>
              match parse_string_body r'' with
              | Some (str, rest) => Some (u :: str, rest)
              | None => None
              end
            | None => None
            end
          | _ => None
          end
        else
          match simple_escape e with
          | Some u =>
            match parse_string_body r' with
            | Some (str, rest) => Some (u :: str, rest)
            | None => None
            end
          | None => None
          end
      end
    else if (c <? 32)%N then None
    else
      match parse_string_body r with
      | Some (str, rest) => Some (c :: str, rest)
      | None => None
      end
  end.

Fixpoint digits (s : jstr) : jstr * jstr :=
  match s with
  | [] => ([], [])
  | c :: r =>
    if is_digit c then let (d, rest) := digits r in (c :: d, rest) else ([], s)
  end.

(** [int]: [0] or a non-zero digit followed by digits. *)
Definition parse_int (s : jstr) : option (jstr * jstr) :=
  match s with
  | c :: r =>
    if (c =? 48)%N then Some ([c], r)
    else if is_digit c then let (d, rest) := digits r in Some (c :: d, rest)
    else None
  | [] => None
  end.

(** [frac]: optional, a point followed by at least one digit. *)
Definition parse_frac (s : jstr) : option (jstr * jstr) :=
  match s with
  | c :: r =>
    if (c =? 46)%N then
      match digits r with
      | ([], _) => None
      | (d, rest) => Some (c :: d, rest)
      end
    else Some ([], s)
  | [] => Some ([], [])
  end.

(** [exp]: optional, [e] or [E], an optional sign, at least one digit. *)
Definition parse_exp (s : jstr) : option (jstr * jstr) :=
  match s with
  | c :: r =>
    if (c =? 101)%N || (c =? 69)%N then
      let '(sg, r1) :=
        match r with
        | d :: r' => if (d =? 43)%N || (d =? 45)%N then ([d], r') else ([], r)
        | [] => ([], [])
        end in
      match digits r1 with
      | ([], _) => None
      | (d, rest) => Some (c :: sg ++ d, rest)
      end
    else Some ([], s)
  | [] => Some ([], [])
  end.

Definition parse_number (s : jstr) : option (jstr * jstr) :=
  let '(minus, s1) :=
    match s with
    | c :: r => if (c =? 45)%N then ([c], r) else ([], s)
    | [] => ([], [])
    end in
  match parse_int s1 with
  | None => None
  | Some (i, s2) =>
    match parse_frac s2 with
    | None => None
    | Some (f, s3) =>
      match parse_exp s3 with
      | None => None
      | Some (e, s4) => Some (minus ++ i ++ f ++ e, s4)
      end
    end
  end.

Definition LIT_TRUE : jstr := js "true".
Definition LIT_FALSE : jstr := js "false".
Definition LIT_NULL : jstr := js "null".

(** Recursive descent over the JSON grammar.  The fuel bounds the
    recursion; every recursive call is on a strictly shorter input, so
    [S (length s)] is always enough ([parse_fuel] below: a parse that
    consumes k code units succeeds with any fuel of at least k). *)
Fixpoint parse_value (n : nat) (s : jstr) {struct n} : option (json * jstr) :=
  match n with
  | O => None
  | S n' =>
    match s with
    | [] => None
    | c :: r =>
      if (c =? LBRACE)%N then
        match skip_json_ws r with
        | c' :: r' =>
          if (c' =? RBRACE)%N then Some (JObject [], r')
          else parse_members n' (skip_json_ws r) []
        | [] => None
        end
      else if (c =? LBRACKET)%N then
        match skip_json_ws r with
        | c' :: r' =>
          if (c' =? RBRACKET)%N then Some (JArray [], r')
          else parse_elements n' (skip_json_ws r) []
        | [] => None
        end
      else if (c =? QUOTE)%N then
        match parse_string_body r with
        | Some (str, rest) => Some (JString str, rest)
        | None => None
        end
      else if prefixb LIT_TRUE s then Some (JBool true, skipn 4 s)
      else if prefixb LIT_FALSE s then Some (JBool false, skipn 5 s)
      else if prefixb LIT_NULL s then Some (JNull, skipn 4 s)
      else
        match parse_number s with
        | Some (lex, rest) => Some (JNumber lex, rest)
        | None => None
        end
    end
  end
with parse_members (n : nat) (s : jstr) (acc : list (jstr * json)) {struct n}
  : option (json * jstr) :=
  match n with
  | O => None
  | S n' =>
    match s with
    | [] => None
    | c :: r =>
      if (c =? QUOTE)%N then
        match parse_string_body r with
        | None => None
        | Some (k, r1) =>
          match skip_json_ws r1 with
          | [] => None
          | c1 :: r2 =>
            if (c1 =? COLON)%N then
              match parse_value n' (skip_json_ws r2) with
              | None => None
              | Some (v, r3) =>
                match skip_json_ws r3 with
                | [] => None
                | c3 :: r4 =>
                  if (c3 =? COMMA)%N then parse_members n' (skip_json_ws r4) (acc ++ [(k, v)])
                  else if (c3 =? RBRACE)%N then Some (JObject (acc ++ [(k, v)]), r4)
                  else None
                end
              end
            else None
          end
        end
      else None
    end
  end
with parse_elements (n : nat) (s : jstr) (acc : list json) {struct n}
  : option (json * jstr) :=
  match n with
  | O => None
  | S n' =>
    match parse_value n' s with
    | None => None
    | Some (v, r3) =>
      match skip_json_ws r3 with
      | [] => None
      | c3 :: r4 =>
        if (c3 =? COMMA)%N then parse_elements n' (skip_json_ws r4) (acc ++ [v])
        else if (c3 =? RBRACKET)%N then Some (JArray (acc ++ [v]), r4)
        else None
      end
    end
  end.

(** [JSON.parse]: [None] is the [SyntaxError] it throws. *)
Definition JSON_parse (s : jstr) : option json :=
  match parse_value (S (length s)) (skip_json_ws s) with
  | Some (v, rest) => if forallb is_json_ws rest then Some v else None
  | None => None
  end.

Example JSON_parse_ex1 :
  JSON_parse (jq " {'a': [1, -2.5e3, true, null], 'b': 'x\ny'} ") =
  Some (JObject [(js "a", JArray [JNumber (js "1"); JNumber (js "-2.5e3"); JBool true; JNull]);
                 (js "b", JString [120; 10; 121]%N)]).
Proof. reflexivity. Qed.

(* ------------------------------------------------------------------ *)
(** ** [parseClaudeResponse] (server.js, lines 91-171) *)

(** The object the fallbacks build: [{articleBody, linkedinSnippet}]. *)
Definition two_fields (body snippet : jstr) : json :=
  JObject [(js "articleBody", JString body); (js "linkedinSnippet", JString snippet)].

(** The markers quote-articleBody-quote-colon-space-quote and the same
    for linkedinSnippet (16 and 20 code units). *)
Definition ARTICLE_MARK : jstr := [QUOTE] ++ js "articleBody" ++ [QUOTE; COLON; SPACE; QUOTE].
Definition SNIPPET_MARK : jstr := [QUOTE] ++ js "linkedinSnippet" ++ [QUOTE; COLON; SPACE; QUOTE].

(** Third attempt (lines 116-138): cut the two values out by position. *)
Definition reconstruct (jsonOnly : jstr) : option json :=
  let articleBodyStart := (indexOf jsonOnly ARTICLE_MARK + jlen ARTICLE_MARK)%Z in
  let linkedinStart := (indexOf jsonOnly SNIPPET_MARK + jlen SNIPPET_MARK)%Z in
  let articleBodyEnd := lastIndexOf jsonOnly [QUOTE; COMMA] (linkedinStart - jlen SNIPPET_MARK)%Z in
  let linkedinEnd := lastIndexOf jsonOnly [QUOTE] (jlen jsonOnly - 2)%Z in
  if (0 <? articleBodyStart)%Z && (articleBodyStart <? articleBodyEnd)%Z &&
     (0 <? linkedinStart)%Z && (linkedinStart <? linkedinEnd)%Z
  then Some (two_fields (substring jsonOnly articleBodyStart articleBodyEnd)
                        (substring jsonOnly linkedinStart linkedinEnd))
  else None.

(** Fourth attempt (line 146): the first match of the regular expression
    for: quoted articleBody key, colon, [\s*], quote, lazy group one,
    quote, comma, [\s*], quoted linkedinSnippet key, colon, [\s*], quote,
    lazy group two, quote, [\s*], closing brace.
    Each [\s*] is followed by a literal quote or brace, so taking all the
    whitespace is the only way it can succeed; the lazy groups are tried
    shortest first, with backtracking into the first group. *)
Definition ARTICLE_KEY : jstr := [QUOTE] ++ js "articleBody" ++ [QUOTE; COLON].
Definition SNIPPET_KEY : jstr := [QUOTE] ++ js "linkedinSnippet" ++ [QUOTE; COLON].

(** Quote, [\s*], closing brace at the start of [u]. *)
Definition rx_close (u : jstr) : bool :=
  match u with
  | q :: r =>
    (q =? QUOTE)%N &&
    match drop_js_ws r with
    | b :: _ => (b =? RBRACE)%N
    | [] => false
    end
  | [] => false
  end.

(** Second group: the shortest prefix followed by [close]. *)
Fixpoint rx_group2 (u : jstr) : option jstr :=
  if rx_close u then Some []
  else match u with
       | [] => None
       | c :: r => option_map (cons c) (rx_group2 r)
       end.

(** Quote, comma, [\s*], quoted linkedinSnippet key, colon, [\s*], quote
    at the start of [u]; the input after it. *)
Definition rx_middle (u : jstr) : option jstr :=
  match u with
  | q :: cm :: r =>
    if (q =? QUOTE)%N && (cm =? COMMA)%N then
      let r1 := drop_js_ws r in
      if prefixb SNIPPET_KEY r1 then
        match drop_js_ws (skipn (length SNIPPET_KEY) r1) with
        | q2 :: r2 => if (q2 =? QUOTE)%N then Some r2 else None
        | [] => None
        end
      else None
    else None
  | _ => None
  end.

(** First group: the shortest prefix for which the rest of the pattern matches. *)
Fixpoint rx_group1 (u : jstr) : option (jstr * jstr) :=
  match match rx_middle u with Some r => rx_group2 r | None => None end with
  | Some g2 => Some ([], g2)
  | None =>
    match u with
    | [] => None
    | c :: r =>
      match rx_group1 r with
      | Some (g1, g2) => Some (c :: g1, g2)
      | None => None
      end
    end
  end.

(** A match starting exactly at the beginning of [u]. *)
Definition rx_at (u : jstr) : option (jstr * jstr) :=
  if prefixb ARTICLE_KEY u then
    match drop_js_ws (skipn (length ARTICLE_KEY) u) with
    | q :: r => if (q =? QUOTE)%N then rx_group1 r else None
    | [] => None
    end
  else None.

(** [String.prototype.match] with that pattern: leftmost start first. *)
Fixpoint rx_search (u : jstr) : option (jstr * jstr) :=
  match rx_at u with
  | Some g => Some g
  | None =>
    match u with
    | [] => None
    | _ :: r => rx_search r
    end
  end.

(** The outcome of [parseClaudeResponse]: a value, or the [Error] thrown
    at line 168 (no braces) or at line 164 (every attempt failed). *)
Inductive parse_outcome : Type :=
| Parsed (v : json)
| NoJsonFound
| Unparseable.

(** Line 93: the two global replacements, then [trim]. *)
Definition strip_fences (raw : jstr) : jstr :=
  trim (replace_global_ws FENCE (replace_global_ws FENCE_JSON raw)).

Definition parseClaudeResponse (rawContent : jstr) : parse_outcome :=
  let content := strip_fences rawContent in
  match JSON_parse content with
  | Some v => Parsed v
  | None =>
    let jsonStart := indexOf content [LBRACE] in
    let jsonEnd := (lastIndexOf content [RBRACE] (jlen content) + 1)%Z in
    if negb (jsonStart =? -1)%Z && (jsonStart <? jsonEnd)%Z then
      let jsonOnly := substring content jsonStart jsonEnd in
      match JSON_parse jsonOnly with
      | Some v => Parsed v
      | None =>
        match reconstruct jsonOnly with
        | Some v => Parsed v
        | None =>
          match rx_search jsonOnly with
          | Some (a, b) => Parsed (two_fields a b)
          | None => Unparseable
          end
        end
      end
    else NoJsonFound
  end.

Example parseClaudeResponse_fenced :
  parseClaudeResponse (js "```json" ++ [10] ++ jq "{'articleBody': 'p', 'linkedinSnippet': 'h'}" ++ [10] ++ js "```")%N
  = Parsed (two_fields (js "p") (js "h")).
Proof. reflexivity. Qed.

(** A raw newline inside the body defeats [JSON.parse]; the third
    attempt recovers both values. *)
Example parseClaudeResponse_raw_newline :
  parseClaudeResponse (jq "{'articleBody': 'a" ++ [10] ++ jq "b', 'linkedinSnippet': 'h'}")%N
  = Parsed (two_fields ([97; 10; 98])%N (js "h")).
Proof. reflexivity. Qed.

(* ------------------------------------------------------------------ *)
(** ** JavaScript values of the request body *)

Fixpoint jstr_eqb (a b : jstr) : bool :=
  match a, b with
  | [], [] => true
  | x :: a', y :: b' => (x =? y)%N && jstr_eqb a' b'
  | _, _ => false
  end.

(** Decimal digits as an integer. *)
Definition digits_value (ds : jstr) : Z :=
  fold_left (fun acc d => acc * 10 + Z.of_N (d - 48))%Z ds 0%Z.

Fixpoint split_at_exp (lex : jstr) : jstr * jstr :=
  match lex with
  | [] => ([], [])
  | c :: r =>
    if (c =? 101)%N || (c =? 69)%N then ([], r)
    else let (m, e) := split_at_exp r in (c :: m, e)
  end.

Fixpoint after_point (m : jstr) : jstr :=
  match m with
  | [] => []
  | c :: r => if (c =? 46)%N then r else after_point r
  end.

(** Whether the double denoted by a number lexeme is zero: its digits are
    all zero, or it lies at or below 2^-1075 and rounds to zero. *)
Definition number_is_zero (lex : jstr) : bool :=
  let '(m, e) := split_at_exp lex in
  let ds := filter is_digit m in
  let mant := digits_value ds in
  let ex :=
    match e with
    | s :: r => if (s =? 45)%N then (- digits_value r)%Z
                else if (s =? 43)%N then digits_value r else digits_value e
    | [] => 0%Z
    end in
  let scale := (ex - Z.of_nat (length (after_point m)))%Z in
  if (mant =? 0)%Z then true
  else if (0 <=? scale)%Z then false
  else if (Z.of_nat (length ds) + 324 <=? - scale)%Z then true
  else (mant * 2 ^ 1075 <=? 10 ^ (- scale))%Z.

(** JavaScript truthiness; [None] is [undefined]. *)
Definition truthy (v : option json) : bool :=
  match v with
  | None => false
  | Some JNull => false
  | Some (JBool b) => b
  | Some (JNumber lex) => negb (number_is_zero lex)
  | Some (JString s) => negb (jstr_eqb s [])
  | Some (JArray _) | Some (JObject _) => true
  end.

(** Property read [v.k] on a parsed JSON value: [None] is the [TypeError]
    of reading a property of [null]; the inner [None] is [undefined].
    For duplicated keys [JSON.parse] keeps the last value. *)
Definition get_prop (v : json) (k : jstr) : option (option json) :=
  match v with
  | JNull => None
  | JObject ms =>
    Some (fold_left (fun acc '(k', x) => if jstr_eqb k' k then Some x else acc) ms None)
  | _ => Some None
  end.

(** [req.body.k]: [express.json] gives a parsed object (or [{}]). *)
Definition get_field (body : json) (k : string) : option json :=
  match get_prop body (js k) with
  | Some v => v
  | None => None
  end.

(** The exceptions the request handlers catch. *)
Inductive thrown : Type :=
| TypeErr        (* calling a method a value does not have *)
| SyntaxErr      (* [new RegExp] on an invalid pattern *)
| ClaudeApiErr   (* [Claude API failed: ...] (server.js line 329) *)
| StrapiErr.     (* rethrown by [createStrapiArticle]; the log line of its
                    [catch] can itself raise a [TypeError] on a failure body
                    whose [message] does not convert, which this model does
                    not distinguish: either way the handler answers 500 *)

(* ------------------------------------------------------------------ *)
(** ** [splitContentBySubheadings] (server.js, lines 65-88) *)

(** [subheadings.filter(sh => sh && sh.trim())]: [None] is the [TypeError]
    of calling [trim] on a truthy value that is not a string. *)
Fixpoint valid_subheadings (subs : list (option json)) : option (list jstr) :=
  match subs with
  | [] => Some []
  | sh :: rest =>
    match valid_subheadings rest with
    | None => None
    | Some vs =>
      if truthy sh then
        match sh with
        | Some (JString s) => if jstr_eqb (trim s) [] then Some vs else Some (s :: vs)
        | _ => None
        end
      else Some vs
    end
  end.

(** The source of [new RegExp(`(## ${thirdSubheading})`, 'i')]; an absent
    third subheading is interpolated as [undefined]. *)
Definition split_pattern (valid : list jstr) : jstr :=
  let third := match nth_error valid 2 with Some t => t | None => js "undefined" end in
  js "(## " ++ third ++ js ")".

Section Partitioner.

(** [new RegExp(src, 'i')] followed by [content.search(re)]: [None] is the
    [SyntaxError] of the constructor, [Some i] the index of the first
    match or [-1]. *)
Variable regexp_search_i : jstr -> jstr -> option Z.

Definition splitContentBySubheadings (content : jstr) (subheadings : list (option json))
  : (jstr * jstr) + thrown :=
  match valid_subheadings subheadings with
  | None => inr TypeErr
  | Some validSubheadings =>
    match regexp_search_i (split_pattern validSubheadings) content with
    | None => inr SyntaxErr
    | Some splitMatch =>
      if negb (splitMatch =? -1)%Z then
        inl (substring content 0 splitMatch, substring content splitMatch (jlen content))
      else
        let halfPoint := Z.of_nat (Nat.div (length content) 2) in
        inl (substring content 0 halfPoint, substring content halfPoint (jlen content))
    end
  end.

End Partitioner.

(* ------------------------------------------------------------------ *)
(** ** Categories (server.js, lines 174-220) *)

(** A Strapi category: [cat.id] and [cat.attributes.name]. *)
Record category : Type := mkCategory { cat_id : N; cat_name : jstr }.

(** The answer to the category listing request: failed (network or
    non-2xx), or [response.data.data], absent or a list of categories. *)
Inductive fetch_result : Type :=
| FetchFailed
| FetchOk (data : option (list category)).

(** [getStrapiCategories]: a failure is logged and turned into [[]]. *)
Definition getStrapiCategories (r : fetch_result) : list category :=
  match r with
  | FetchFailed => []
  | FetchOk None => []
  | FetchOk (Some d) => d
  end.

Fixpoint split_on (sep : N) (s : jstr) : list jstr :=
  match s with
  | [] => [[]]
  | c :: r =>
    if (c =? sep)%N then [] :: split_on sep r
    else match split_on sep r with
         | w :: ws => (c :: w) :: ws
         | [] => [[c]]
         end
  end.

(** [parseCategories]: [None] is the [TypeError] of [split] on a truthy
    value that is neither an array nor a string. *)
Definition parseCategories (categoryInput : option json) : option (list json) :=
  if negb (truthy categoryInput) then Some []
  else
    match categoryInput with
    | Some (JArray xs) => Some xs
    | Some (JString s) =>
      Some (map JString (filter (fun c => negb (jstr_eqb c [])) (map trim (split_on COMMA s))))
    | _ => None
    end.

(* ------------------------------------------------------------------ *)
(** ** Conversions to string *)

(** Whether [ToString] throws on a parsed JSON value.  For an object,
    [ToPrimitive] calls [toString]; an own [toString] property of a
    parsed object is never callable, so it falls back to [valueOf], whose
    own property is not callable either and whose inherited one answers
    the object itself: a [TypeError].  Without an own [toString] the
    inherited one answers [[object Object]].  An array converts through
    [join], element by element. *)
Fixpoint to_string_throws (v : json) : bool :=
  match v with
  | JObject ms => existsb (fun kv => jstr_eqb (fst kv) (js "toString")) ms
  | JArray xs =>
    (fix go (l : list json) : bool :=
       match l with
       | [] => false
       | x :: r => to_string_throws x || go r
       end) xs
  | _ => false
  end.

Section Categories.

(** [String.prototype.toLowerCase]. *)
Variable to_lower : jstr -> jstr.

(** [strapiCategories.find(cat => cat.attributes.name.toLowerCase() === lname)]. *)
Fixpoint find_category (dir : list category) (lname : jstr) : option category :=
  match dir with
  | [] => None
  | c :: rest => if jstr_eqb (to_lower (cat_name c)) lname then Some c else find_category rest lname
  end.

(** The loop of [findCategoryIds] over a fetched directory.  The callback
    of [find] calls [categoryName.toLowerCase()], a [TypeError] ([None])
    for a name that is not a string, but only if the directory is not
    empty.  A name that is not found is converted by the warning of
    line 215, a [TypeError] when [ToString] throws on it; a name found in
    a non-empty directory is a string, so this can only happen with the
    empty directory. *)
Fixpoint resolve_ids (dir : list category) (categoryNames : list json) : option (list N) :=
  match categoryNames with
  | [] => Some []
  | name :: rest =>
    let found :=
      match dir with
      | [] => if to_string_throws name then None else Some None
      | _ :: _ =>
        match name with
        | JString s => Some (find_category dir (to_lower s))
        | _ => None
        end
      end in
    match found with
    | None => None
    | Some f =>
      match resolve_ids dir rest with
      | None => None
      | Some ids =>
        Some (match f with Some c => cat_id c :: ids | None => ids end)
      end
    end
  end.

Definition findCategoryIds (r : fetch_result) (categoryNames : list json) : option (list N) :=
  resolve_ids (getStrapiCategories r) categoryNames.

End Categories.

(* ------------------------------------------------------------------ *)
(** ** External calls and the handlers' effects *)

(** The record posted to [/api/articles]; [None] is a property that is
    [undefined] and therefore left out of the JSON body. *)
Record strapi_data : Type := mkStrapiData {
  sd_title : option json;
  sd_headline : option json;
  sd_summary : option json;
  sd_body : option json;
  sd_bodyImageText : option json;
  sd_linkedInSummary : option json;
  sd_categories : option (list N);
  sd_publishDate : option jstr;
  sd_publishedAt : option json
}.

(** The external calls, in the order they are issued.  [ClaudePost]
    carries the request values the prompt interpolates. *)
Inductive call : Type :=
| CategoriesGet
| ClaudePost (prompt_inputs : list (option json))
| StrapiPost (d : strapi_data).

(** Answers of the Anthropic API: a failure (network, non-2xx, or a body
    without [content[0].text]), or the text of the reply. *)
Inductive llm_result : Type :=
| LlmFailed
| LlmReplied (text : jstr).

(** Answers of the article creation: a failure, or [response.data.data.id]. *)
Inductive cms_result : Type :=
| CmsFailed
| CmsCreated (id : option json).

(** What the outside world answers during one request. *)
Record env : Type := mkEnv {
  env_categories : fetch_result;
  env_llm : llm_result;
  env_cms : cms_result;
  env_now : jstr            (* [new Date().toISOString()] *)
}.

(** A state-and-exception monad: the trace of external calls so far, and
    a value or a thrown exception. *)
Definition M (A : Type) : Type := list call -> list call * (A + thrown).

Definition ret {A} (a : A) : M A := fun tr => (tr, inl a).
Definition throw {A} (t : thrown) : M A := fun tr => (tr, inr t).
Definition bind {A B} (m : M A) (k : A -> M B) : M B :=
  fun tr =>
    match m tr with
    | (tr', inl a) => k a tr'
    | (tr', inr t) => (tr', inr t)
    end.
Definition perform (c : call) : M unit := fun tr => (tr ++ [c], inl tt).
Definition of_option {A} (t : thrown) (o : option A) : M A :=
  match o with Some a => ret a | None => throw t end.
Definition of_sum {A} (o : A + thrown) : M A :=
  match o with inl a => ret a | inr t => throw t end.

Local Notation "x <- m ;; k" := (bind m (fun x => k))
  (at level 61, m at next level, right associativity).

(** The keys under which [CONTENT_PROMPTS[funnelType]] is an object or a
    function: its own three and those inherited from [Object.prototype].
    For any other key it is [undefined] and reading [.wordCount] throws. *)
Definition prompt_keys : list jstr :=
  map js ["TOF"; "MOF"; "EOF"; "constructor"; "__proto__"; "hasOwnProperty";
          "isPrototypeOf"; "propertyIsEnumerable"; "toString"; "valueOf";
          "toLocaleString"; "__defineGetter__"; "__defineSetter__";
          "__lookupGetter__"; "__lookupSetter__"]%string.

(** Whether the property key of [funnelType] is one of them.  Only a
    string, or a one-element array whose element qualifies, converts to a
    key without a comma and outside the character set of numbers. *)
Fixpoint prompt_key_ok (v : json) : bool :=
  match v with
  | JString s => existsb (jstr_eqb s) prompt_keys
  | JArray [x] => prompt_key_ok x
  | _ => false
  end.

(** [firstPart.split(/\s+/).length]: one more than the number of maximal
    runs of whitespace. *)
Fixpoint ws_runs (in_run : bool) (s : jstr) : nat :=
  match s with
  | [] => 0
  | c :: r =>
    if is_js_ws c then (if in_run then 0 else 1) + ws_runs true r
    else ws_runs false r
  end.

Definition word_count (s : jstr) : nat := S (ws_runs false s).

(** A template literal [`...${v}...`]; [undefined] converts. *)
Definition to_string_check (v : option json) : M unit :=
  match v with
  | Some x => if to_string_throws x then throw TypeErr else ret tt
  | None => ret tt
  end.

(** [xs.join(', ')]: [null] elements become the empty string, the others
    are converted. *)
Definition join_check (xs : list json) : M unit :=
  if existsb to_string_throws xs then throw TypeErr else ret tt.

(** The method call [strapiArticleId.toString()]: [undefined] and [null]
    have no method, and a parsed object with an own [toString] property
    has one that is not callable. *)
Definition id_to_string (id : option json) : M json :=
  match id with
  | None | Some JNull => throw TypeErr
  | Some v => if to_string_throws v then throw TypeErr else ret v
  end.

(** The caller-facing responses of [/api/generate]. *)
Inductive outcome : Type :=
| MissingFields
| NoCategoriesMatched
| TooFewSubheadings
| ServerError (t : thrown)
| Generated (strapiId : json) (linkedinSnippet : option json) (generatedDate : jstr)
    (bodyWordCount bodyImageTextWordCount categoriesConnected subheadingsUsed : nat)
| GeneratedV1 (strapiId : json) (linkedinSnippet : option json) (generatedDate : jstr).

Record response : Type := mkResponse { status : N; success : bool; result : outcome }.

(** [new Date().toISOString().split('T')[0]]. *)
Definition date_part (iso : jstr) : jstr := hd [] (split_on 84 iso).

Section Orchestrator.

Variable to_lower : jstr -> jstr.
Variable regexp_search_i : jstr -> jstr -> option Z.

(** [generateContent] (server.js, lines 223-331).  The prompt is built
    before the [try]: it joins the categories (line 224), filters the
    subheadings (line 225), converts [funnelType] and looks it up in
    [CONTENT_PROMPTS] (lines 247-252; both throw unless [prompt_key_ok]),
    and converts [headline] and [summary] (lines 255-256), so each of
    these throws before any call; every failure inside the [try], a parse
    failure included, is rethrown as [Claude API failed]. *)
Definition generateContent (e : env) (headline summary : option json) (categories : list json)
    (funnelType : option json) (subheadings : list (option json)) : M json :=
  _ <- join_check categories ;;
  _ <- of_option TypeErr (valid_subheadings subheadings) ;;
  match funnelType with
  | Some f =>
    if prompt_key_ok f then
      _ <- to_string_check headline ;;
      _ <- to_string_check summary ;;
      _ <- perform (ClaudePost ([headline; summary; Some (JArray categories); funnelType] ++ subheadings)) ;;
      match env_llm e with
      | LlmFailed => throw ClaudeApiErr
      | LlmReplied rawContent =>
        match parseClaudeResponse rawContent with
        | Parsed v => ret v
        | _ => throw ClaudeApiErr
        end
      end
    else throw TypeErr
  | None => throw TypeErr
  end.

(** [createStrapiArticle] (server.js, lines 334-366). *)
Definition createStrapiArticle (e : env) (headline summary : option json)
    (articleBody bodyImageText : jstr) (categoryIds : list N) (linkedinSnippet : option json)
  : M (option json) :=
  _ <- perform (StrapiPost {|
         sd_title := headline;
         sd_headline := headline;
         sd_summary := summary;
         sd_body := Some (JString articleBody);
         sd_bodyImageText := Some (JString bodyImageText);
         sd_linkedInSummary := linkedinSnippet;
         sd_categories := Some categoryIds;
         sd_publishDate := Some (env_now e);
         sd_publishedAt := Some JNull |}) ;;
  match env_cms e with
  | CmsFailed => throw StrapiErr
  | CmsCreated id => ret id
  end.

Definition resp (st : N) (ok : bool) (o : outcome) : response := mkResponse st ok o.

(** [[subheading1, ..., subheading6]] (server.js, line 497). *)
Definition request_subheadings (body : json) : list (option json) :=
  map (get_field body)
    ["subheading1"; "subheading2"; "subheading3"; "subheading4"; "subheading5"; "subheading6"]%string.

(** The body of [app.post('/api/generate')] (server.js, lines 475-545),
    up to its [catch].  Besides the calls it converts the categories in
    the error message of line 493, [headline] in the log line of line 507,
    the id and [headline] in the log line of line 523, and calls the id's
    [toString] at line 528. *)
Definition api_generate_body (e : env) (body : json) : M response :=
  let headline := get_field body "headline" in
  let summary := get_field body "summary" in
  let category := get_field body "category" in
  let funnelType := get_field body "funnelType" in
  let subheadings := request_subheadings body in
  if negb (truthy headline && truthy summary && truthy category && truthy funnelType) then
    ret (resp 400 false MissingFields)
  else
    categories <- of_option TypeErr (parseCategories category) ;;
    _ <- perform CategoriesGet ;;
    categoryIds <- of_option TypeErr (findCategoryIds to_lower (env_categories e) categories) ;;
    match categoryIds with
    | [] =>
      _ <- join_check categories ;;
      ret (resp 400 false NoCategoriesMatched)
    | _ :: _ =>
      validSubheadings <- of_option TypeErr (valid_subheadings subheadings) ;;
      if Nat.ltb (length validSubheadings) 4 then ret (resp 400 false TooFewSubheadings)
      else
        _ <- to_string_check headline ;;
        generatedContent <- generateContent e headline summary categories funnelType subheadings ;;
        articleBody <- of_option TypeErr (get_prop generatedContent (js "articleBody")) ;;
        parts <- (match articleBody with
                  | Some (JString content) =>
                    of_sum (splitContentBySubheadings regexp_search_i content subheadings)
                  | _ => throw TypeErr
                  end) ;;
        let '(firstPart, secondPart) := parts in
        linkedinSnippet <- of_option TypeErr (get_prop generatedContent (js "linkedinSnippet")) ;;
        strapiArticleId <- createStrapiArticle e headline summary firstPart secondPart
                             categoryIds linkedinSnippet ;;
        _ <- to_string_check strapiArticleId ;;
        _ <- to_string_check headline ;;
        strapiId <- id_to_string strapiArticleId ;;
        ret (resp 200 true (Generated strapiId linkedinSnippet (date_part (env_now e))
               (word_count firstPart) (word_count secondPart)
               (length categoryIds) (length validSubheadings)))
    end.

(** The handler with its [catch]: any exception becomes a 500. *)
Definition api_generate (e : env) (body : json) : list call * response :=
  match api_generate_body e body [] with
  | (tr, inl r) => (tr, r)
  | (tr, inr t) => (tr, resp 500 false (ServerError t))
  end.

End Orchestrator.

(* ------------------------------------------------------------------ *)
(** ** The first version of the handler (part_000) *)

(** [generateContent] (part_000, lines 66-134): the prompt converts
    [funnelType] and looks it up (lines 70-75), then converts [headline],
    [summary], [category] and [author] (lines 78-81), all before the
    [try]; the reply is handed to [JSON.parse] directly, inside the
    [try]. *)
Definition generateContent_v1 (e : env) (headline summary category funnelType author : option json)
  : M json :=
  match funnelType with
  | Some f =>
    if prompt_key_ok f then
      _ <- to_string_check headline ;;
      _ <- to_string_check summary ;;
      _ <- to_string_check category ;;
      _ <- to_string_check author ;;
      _ <- perform (ClaudePost [headline; summary; category; funnelType; author]) ;;
      match env_llm e with
      | LlmFailed => throw ClaudeApiErr
      | LlmReplied content =>
        match JSON_parse content with
        | Some v => ret v
        | None => throw ClaudeApiErr
        end
      end
    else throw TypeErr
  | None => throw TypeErr
  end.

(** [createStrapiArticle] (part_000, lines 137-166). *)
Definition createStrapiArticle_v1 (e : env) (headline summary articleBody : option json)
  : M (option json) :=
  _ <- perform (StrapiPost {|
         sd_title := headline;
         sd_headline := headline;
         sd_summary := summary;
         sd_body := articleBody;
         sd_bodyImageText := None;
         sd_linkedInSummary := None;
         sd_categories := None;
         sd_publishDate := Some (env_now e);
         sd_publishedAt := Some JNull |}) ;;
  match env_cms e with
  | CmsFailed => throw StrapiErr
  | CmsCreated id => ret id
  end.

(** [app.post('/api/generate')] (part_000, lines 178-223).  Besides the
    calls it converts [headline] in the log line of line 190, the id and
    [headline] in the log line of line 204, and calls the id's
    [toString] at line 210. *)
Definition api_generate_v1_body (e : env) (body : json) : M response :=
  let headline := get_field body "headline" in
  let summary := get_field body "summary" in
  let category := get_field body "category" in
  let funnelType := get_field body "funnelType" in
  let author := get_field body "author" in
  if negb (truthy headline && truthy summary && truthy category && truthy funnelType
           && truthy author) then
    ret (resp 400 false MissingFields)
  else
    _ <- to_string_check headline ;;
    generatedContent <- generateContent_v1 e headline summary category funnelType author ;;
    articleBody <- of_option TypeErr (get_prop generatedContent (js "articleBody")) ;;
    strapiArticleId <- createStrapiArticle_v1 e headline summary articleBody ;;
    _ <- to_string_check strapiArticleId ;;
    _ <- to_string_check headline ;;
    strapiId <- id_to_string strapiArticleId ;;
    linkedinSnippet <- of_option TypeErr (get_prop generatedContent (js "linkedinSnippet")) ;;
    ret (resp 200 true (GeneratedV1 strapiId linkedinSnippet (date_part (env_now e)))).

Definition api_generate_v1 (e : env) (body : json) : list call * response :=
  match api_generate_v1_body e body [] with
  | (tr, inl r) => (tr, r)
  | (tr, inr t) => (tr, resp 500 false (ServerError t))
  end.

(* ------------------------------------------------------------------ *)
(** ** [app.post('/webhook')] (server.js, lines 548-627) *)

(** Its responses.  Every failure body also carries [status: 'error'];
    the success body carries [status: 'generated'], the [notes] built
    from [funnelType], and [articleId], the id as the CMS returned it. *)
Inductive webhook_outcome : Type :=
| WMissingFields
| WNoCategoriesMatched
| WTooFewSubheadings
| WServerError (t : thrown)
| WGenerated (articleId : option json) (strapiId : json) (linkedinSnippet : option json)
    (generatedDate : jstr) (bodyWordCount bodyImageTextWordCount : nat)
    (funnelType : option json) (categoriesConnected subheadingsUsed : nat)
    (categories : list json).

Record webhook_response : Type :=
  mkWebhookResponse { wh_status : N; wh_success : bool; wh_result : webhook_outcome }.

Section Webhook.

Variable to_lower : jstr -> jstr.
Variable regexp_search_i : jstr -> jstr -> option Z.

(** The body of the handler up to its [catch].  The log line of line 550
    hands [req.body] to winston as metadata, and winston's [Logger.log]
    then sets the message to [`${info.message} ${meta.message}`] when
    [meta.message] is truthy: the body's [message] field is converted.
    The error message of line 569 joins the categories, the log line of
    line 585 converts [headline] and joins the categories, the log line of
    line 599 converts the id, line 605 calls its [toString] and the
    [notes] of line 611 convert [funnelType]. *)
Definition api_webhook_body (e : env) (body : json) : M webhook_response :=
  let message := get_field body "message" in
  let headline := get_field body "headline" in
  let summary := get_field body "summary" in
  let category := get_field body "category" in
  let funnelType := get_field body "funnelType" in
  let subheadings := request_subheadings body in
  _ <- (if truthy message then to_string_check message else ret tt) ;;
  if negb (truthy headline && truthy summary && truthy category && truthy funnelType) then
    ret (mkWebhookResponse 400 false WMissingFields)
  else
    categories <- of_option TypeErr (parseCategories category) ;;
    _ <- perform CategoriesGet ;;
    categoryIds <- of_option TypeErr (findCategoryIds to_lower (env_categories e) categories) ;;
    match categoryIds with
    | [] =>
      _ <- join_check categories ;;
      ret (mkWebhookResponse 400 false WNoCategoriesMatched)
    | _ :: _ =>
      validSubheadings <- of_option TypeErr (valid_subheadings subheadings) ;;
      if Nat.ltb (length validSubheadings) 4 then
        ret (mkWebhookResponse 400 false WTooFewSubheadings)
      else
        _ <- to_string_check headline ;;
        _ <- join_check categories ;;
        generatedContent <- generateContent e headline summary categories funnelType subheadings ;;
        articleBody <- of_option TypeErr (get_prop generatedContent (js "articleBody")) ;;
        parts <- (match articleBody with
                  | Some (JString content) =>
                    of_sum (splitContentBySubheadings regexp_search_i content subheadings)
                  | _ => throw TypeErr
                  end) ;;
        let '(firstPart, secondPart) := parts in
        linkedinSnippet <- of_option TypeErr (get_prop generatedContent (js "linkedinSnippet")) ;;
        strapiArticleId <- createStrapiArticle e headline summary firstPart secondPart
                             categoryIds linkedinSnippet ;;
        _ <- to_string_check strapiArticleId ;;
        strapiId <- id_to_string strapiArticleId ;;
        _ <- to_string_check funnelType ;;
        ret (mkWebhookResponse 200 true
               (WGenerated strapiArticleId strapiId linkedinSnippet (date_part (env_now e))
                  (word_count firstPart) (word_count secondPart) funnelType
                  (length categoryIds) (length validSubheadings) categories))
    end.

(** The handler with its [catch]: any exception becomes a 500. *)
Definition api_webhook (e : env) (body : json) : list call * webhook_response :=
  match api_webhook_body e body [] with
  | (tr, inl r) => (tr, r)
  | (tr, inr t) => (tr, mkWebhookResponse 500 false (WServerError t))
  end.

End Webhook.

(* ------------------------------------------------------------------ *)
(** ** [app.get('/api/health')] (server.js, lines 369-396) *)

(** The [strapi_connection] part of the report, with its timestamp. *)
Record health_report : Type := mkHealthReport {
  hr_timestamp : jstr;
  hr_categories_available : nat;
  hr_sample_categories : list jstr
}.

(** [cat.attributes?.name || 'Unknown']. *)
Definition sample_name (c : category) : jstr :=
  if jstr_eqb (cat_name c) [] then js "Unknown" else cat_name c.

(** The listing call, then the report.  [getStrapiCategories] turns every
    failure into [[]] and the report is built from a list of categories,
    so nothing in the [try] throws and the [unhealthy] answer of the
    [catch] is never given. *)
Definition api_health (e : env) : list call * health_report :=
  let strapiCategories := getStrapiCategories (env_categories e) in
  ([CategoriesGet],
   mkHealthReport (env_now e) (length strapiCategories)
     (map sample_name (firstn 5 strapiCategories))).

(* ------------------------------------------------------------------ *)
(** ** Case-insensitive literal search and a literal RegExp engine *)

(** The syntax characters of JavaScript regular expressions. *)
Definition is_syntax_char (c : N) : bool :=
  existsb (N.eqb c) (map N_of_ascii (list_ascii_of_string "^$\.*+?()[]{}|")).

Definition literal_pattern (lit : jstr) : bool := forallb (fun c => negb (is_syntax_char c)) lit.

Section CaseInsensitive.

(** The [Canonicalize] operation of case-insensitive matching. *)
Variable canon : N -> N.

Fixpoint prefix_ci (p s : jstr) : bool :=
  match p, s with
  | [], _ => true
  | a :: p', b :: s' => (canon a =? canon b)%N && prefix_ci p' s'
  | _ :: _, [] => false
  end.

(** The first position at which [lit] occurs in [s] up to [canon]. *)
Fixpoint ci_find_from (lit s : jstr) (i : nat) : option nat :=
  if prefix_ci lit s then Some i
  else match s with
       | [] => None
       | _ :: r => ci_find_from lit r (S i)
       end.

Definition ci_find (lit s : jstr) : option nat := ci_find_from lit s 0.

Definition search_result (o : option nat) : Z :=
  match o with Some i => Z.of_nat i | None => (-1)%Z end.

(** What ECMAScript prescribes for a pattern [(lit)] whose [lit] has no
    syntax character, under the [i] flag: the group matches [lit]
    character by character up to [canon]. *)
Definition literal_regexp_spec (regexp_search_i : jstr -> jstr -> option Z) : Prop :=
  forall lit s, literal_pattern lit = true ->
    regexp_search_i (js "(" ++ lit ++ js ")") s = Some (search_result (ci_find lit s)).

End CaseInsensitive.

(** ASCII upper-casing, the [Canonicalize] of ASCII letters. *)
Definition ascii_upper (c : N) : N := if (97 <=? c)%N && (c <=? 122)%N then (c - 32)%N else c.

(** ASCII lower-casing, the [toLowerCase] of ASCII letters. *)
Definition ascii_lower (s : jstr) : jstr :=
  map (fun c => if (65 <=? c)%N && (c <=? 90)%N then (c + 32)%N else c) s.

(** A RegExp engine for patterns [(lit)] with a literal [lit], the only
    ones the examples below use; any other source is reported as a
    syntax error. *)
Definition literal_regexp_search_i (src s : jstr) : option Z :=
  match src with
  | c :: r =>
    if (c =? 40)%N && jstr_eqb (skipn (length r - 1) r) [41%N]
       && literal_pattern (firstn (length r - 1) r)
    then Some (search_result (ci_find ascii_upper (firstn (length r - 1) r) s))
    else None
  | [] => None
  end.

(** The claim's reading of the subheading strategy: a line of the body
    that is a [##] heading whose text equals the third valid subheading
    up to [canon]; the body is cut at the first such line, or at its
    character midpoint when there is none.  This follows the wording of
    the specification, to be compared with [splitContentBySubheadings]. *)
Fixpoint line_of (s : jstr) : jstr :=
  match s with
  | [] => []
  | c :: r => if (c =? 10)%N then [] else c :: line_of r
  end.

Definition heading_line_at (canon : N -> N) (content : jstr) (text : jstr) (i : nat) : bool :=
  (Nat.eqb i 0 || (nth (i - 1) content 0 =? 10)%N) && (i <=? length content)%nat &&
  let l := line_of (skipn i content) in
  prefixb (js "## ") l &&
  (Nat.eqb (length (skipn 3 l)) (length text)) && prefix_ci canon text (skipn 3 l).

Definition spec_heading_split (regexp_search_i : jstr -> jstr -> option Z) (canon : N -> N)
    (content : jstr) (subheadings : list (option json)) : Prop :=
  forall valid third,
    valid_subheadings subheadings = Some valid -> nth_error valid 2 = Some third ->
    (forall i, heading_line_at canon content third i = true ->
       (forall j, (j < i)%nat -> heading_line_at canon content third j = false) ->
       splitContentBySubheadings regexp_search_i content subheadings
       = inl (firstn i content, skipn i content)) /\
    ((forall i, heading_line_at canon content third i = false) ->
       let h := Nat.div (length content) 2 in
       splitContentBySubheadings regexp_search_i content subheadings
       = inl (firstn h content, skipn h content)).

(* ------------------------------------------------------------------ *)
(** * Lemmas and claims *)

(** ** Substrings *)

Lemma clamp_nat (n i : nat) : clamp n (Z.of_nat i) = Nat.min i n.
Proof.
  unfold clamp.
  destruct (Nat.le_ge_cases i n).
  - rewrite Nat.min_l by lia. rewrite Z.min_l by lia. rewrite Z.max_r by lia. apply Nat2Z.id.
  - rewrite Nat.min_r by lia. rewrite Z.min_r by lia. rewrite Z.max_r by lia. apply Nat2Z.id.
Qed.

Lemma clamp_bounds (n : nat) (z : Z) : (clamp n z <= n)%nat.
Proof. unfold clamp. lia. Qed.

Lemma substring_to_end (s : jstr) (k : Z) :
  substring s k (jlen s) = skipn (clamp (length s) k) s.
Proof.
  unfold substring, jlen.
  rewrite clamp_nat, Nat.min_id.
  pose proof (clamp_bounds (length s) k).
  rewrite Nat.min_l, Nat.max_r by lia.
  apply firstn_all2. rewrite length_skipn. lia.
Qed.

Lemma substring_from_zero (s : jstr) (k : Z) :
  substring s 0 k = firstn (clamp (length s) k) s.
Proof.
  unfold substring.
  replace (clamp (length s) 0) with 0%nat by (unfold clamp; lia).
  rewrite Nat.min_0_l, Nat.max_0_l, Nat.sub_0_r. reflexivity.
Qed.

Lemma substring_cut (s : jstr) (k : Z) :
  substring s 0 k ++ substring s k (jlen s) = s.
Proof. rewrite substring_to_end, substring_from_zero. apply firstn_skipn. Qed.

Lemma substring_cut_nat (s : jstr) (i : nat) :
  substring s 0 (Z.of_nat i) = firstn i s /\ substring s (Z.of_nat i) (jlen s) = skipn i s.
Proof.
  rewrite substring_to_end, substring_from_zero, clamp_nat.
  destruct (Nat.le_ge_cases i (length s)).
  - rewrite Nat.min_l by lia. auto.
  - rewrite Nat.min_r by lia. rewrite firstn_all, skipn_all, firstn_all2, skipn_all2 by lia. auto.
Qed.

(** ** The partitioner *)

Lemma split_pattern_third (valid : list jstr) (third : jstr) :
  nth_error valid 2 = Some third ->
  split_pattern valid = js "(" ++ (js "## " ++ third) ++ js ")".
Proof. intros H. unfold split_pattern. rewrite H. reflexivity. Qed.

Lemma literal_regexp_search_i_spec : literal_regexp_spec ascii_upper literal_regexp_search_i.
Proof.
  intros lit s Hlit. unfold literal_regexp_search_i.
  change (js "(") with [40%N]. change (js ")") with [41%N]. cbn [app].
  assert (Hl : (length (lit ++ [41%N]) - 1 = length lit)%nat)
    by (rewrite length_app; simpl; lia).
  rewrite Hl, skipn_app, skipn_all, Nat.sub_diag, firstn_app, firstn_all, Nat.sub_diag.
  simpl. rewrite app_nil_r, Hlit. reflexivity.
Qed.

(** [C3] The two parts returned by [splitContentBySubheadings]
    concatenate back to the body, whatever index the search returns. *)
Theorem split_parts_concat :
  forall (regexp_search_i : jstr -> jstr -> option Z) (content : jstr)
         (subheadings : list (option json)) (firstPart secondPart : jstr),
    splitContentBySubheadings regexp_search_i content subheadings = inl (firstPart, secondPart) ->
    firstPart ++ secondPart = content.
Proof.
  intros re content subs a b H. unfold splitContentBySubheadings in H.
  destruct (valid_subheadings subs) as [valid|]; [|discriminate].
  destruct (re (split_pattern valid) content) as [k|]; [|discriminate].
  destruct (negb (k =? -1)%Z); injection H as <- <-; apply substring_cut.
Qed.

Definition sample_subheadings : list (option json) :=
  [Some (JString (js "Intro")); Some (JString (js "Body")); Some (JString (js "Goal"));
   Some (JString (js "End")); None; Some (JString (js "  "))].

Lemma split_parts_concat_witness :
  splitContentBySubheadings literal_regexp_search_i (js "abc ## goal xyz") sample_subheadings
  = inl (js "abc ", js "## goal xyz") /\
  js "abc " ++ js "## goal xyz" = js "abc ## goal xyz".
Proof.
  split; [vm_compute; reflexivity|].
  apply (split_parts_concat literal_regexp_search_i (js "abc ## goal xyz") sample_subheadings).
  vm_compute. reflexivity.
Defined.

(** The body used against the heading reading: a heading [## Goals]
    precedes the heading [## Goal]. *)
Definition goals_body : jstr := js "## Goals" ++ [10%N] ++ js "## Goal".

(** [C2] counterexample: the first heading line whose text is the third
    subheading [Goal] starts at index 9, but the search for [## Goal]
    finds the prefix of [## Goals] at index 0, so [firstPart] is empty. *)
Lemma heading_split_counterexample :
  ~ spec_heading_split literal_regexp_search_i ascii_upper goals_body sample_subheadings.
Proof.
  intros H.
  destruct (H [js "Intro"; js "Body"; js "Goal"; js "End"] (js "Goal") eq_refl eq_refl) as [H1 _].
  assert (Hfirst : forall j, (j < 9)%nat ->
            heading_line_at ascii_upper goals_body (js "Goal") j = false).
  { intros j Hj. do 9 (destruct j as [|j]; [reflexivity|]). lia. }
  specialize (H1 9%nat eq_refl Hfirst).
  vm_compute in H1. discriminate H1.
Qed.

(** [C2] as the code does it: for a third valid subheading without
    syntax characters, the body is cut at the first case-insensitive
    occurrence of [## ] followed by it, anywhere in the body; with no
    occurrence, at the character midpoint. *)
Theorem split_at_first_occurrence :
  forall (canon : N -> N) (regexp_search_i : jstr -> jstr -> option Z),
    literal_regexp_spec canon regexp_search_i ->
    forall (content : jstr) (subheadings : list (option json)) (valid : list jstr) (third : jstr),
      valid_subheadings subheadings = Some valid ->
      nth_error valid 2 = Some third ->
      literal_pattern (js "## " ++ third) = true ->
      splitContentBySubheadings regexp_search_i content subheadings
      = inl (match ci_find canon (js "## " ++ third) content with
             | Some i => (firstn i content, skipn i content)
             | None =>
               let h := Nat.div (length content) 2 in (firstn h content, skipn h content)
             end).
Proof.
  intros canon re Hre content subs valid third Hv H3 Hlit.
  unfold splitContentBySubheadings. rewrite Hv, (split_pattern_third valid third H3), (Hre _ _ Hlit).
  destruct (ci_find canon (js "## " ++ third) content) as [i|]; simpl search_result.
  - replace (negb (Z.of_nat i =? -1)%Z) with true by (symmetry; apply negb_true_iff, Z.eqb_neq; lia).
    destruct (substring_cut_nat content i) as [-> ->]. reflexivity.
  - destruct (substring_cut_nat content (Nat.div (length content) 2)) as [-> ->]. reflexivity.
Qed.

Lemma split_at_first_occurrence_witness :
  splitContentBySubheadings literal_regexp_search_i goals_body sample_subheadings
  = inl ([], goals_body).
Proof.
  rewrite (split_at_first_occurrence ascii_upper literal_regexp_search_i
             literal_regexp_search_i_spec goals_body sample_subheadings
             [js "Intro"; js "Body"; js "Goal"; js "End"] (js "Goal")); vm_compute; reflexivity.
Defined.

(** ** Category resolution *)

Lemma jstr_eqb_eq (a b : jstr) : jstr_eqb a b = true <-> a = b.
Proof.
  revert b; induction a as [|x a IH]; intros [|y b]; simpl; try (split; congruence).
  rewrite andb_true_iff, IH, N.eqb_eq. split; [intros [-> ->]; reflexivity|intros H; injection H; auto].
Qed.

Section CategoryLemmas.

Variable to_lower : jstr -> jstr.

Lemma find_category_some (dir : list category) (l : jstr) (c : category) :
  find_category to_lower dir l = Some c -> In c dir /\ to_lower (cat_name c) = l.
Proof.
  induction dir as [|c' dir IH]; simpl; [discriminate|].
  destruct (jstr_eqb (to_lower (cat_name c')) l) eqn:E.
  - intros H; injection H as <-. apply jstr_eqb_eq in E. auto.
  - intros H. destruct (IH H). auto.
Qed.

Lemma find_category_none (dir : list category) (l : jstr) :
  find_category to_lower dir l = None -> forall c, In c dir -> to_lower (cat_name c) <> l.
Proof.
  induction dir as [|c' dir IH]; simpl; [tauto|].
  destruct (jstr_eqb (to_lower (cat_name c')) l) eqn:E; [discriminate|].
  intros H c [<-|Hin] Heq.
  - apply jstr_eqb_eq in Heq. congruence.
  - exact (IH H c Hin Heq).
Qed.

(** The contribution of one requested name: no id when no directory
    entry has the same lower-cased name, else the id of such an entry. *)
Definition contribution (dir : list category) (s : jstr) (part : list N) : Prop :=
  (part = [] /\ forall c, In c dir -> to_lower (cat_name c) <> to_lower s) \/
  (exists c, In c dir /\ to_lower (cat_name c) = to_lower s /\ part = [cat_id c]).

Lemma resolve_ids_parts (dir : list category) (ss : list jstr) :
  exists parts, resolve_ids to_lower dir (map JString ss) = Some (concat parts) /\
                Forall2 (contribution dir) ss parts.
Proof.
  induction ss as [|s ss IH]; simpl.
  - exists []. auto.
  - destruct IH as [parts [Hr Hf]].
    destruct dir as [|c0 dir'].
    + rewrite Hr. exists ([] :: parts). split; [reflexivity|].
      constructor; [left; split; [reflexivity|intros c []]|exact Hf].
    + rewrite Hr.
      destruct (find_category to_lower (c0 :: dir') (to_lower s)) as [c|] eqn:E.
      * exists ([cat_id c] :: parts). split; [reflexivity|].
        constructor; [|exact Hf]. right. exists c.
        destruct (find_category_some _ _ _ E). auto.
      * exists ([] :: parts). split; [reflexivity|].
        constructor; [|exact Hf]. left. split; [reflexivity|].
        exact (find_category_none _ _ E).
Qed.

Lemma contribution_matched (dir : list category) (s : jstr) (part : list N) :
  contribution dir s part ->
  (existsb (fun c => jstr_eqb (to_lower (cat_name c)) (to_lower s)) dir = true <-> part <> []).
Proof.
  intros [[-> Hno]|[c [Hin [Heq ->]]]]; rewrite existsb_exists; split.
  - intros [c [Hin Hb]]. apply jstr_eqb_eq in Hb. destruct (Hno c Hin Hb).
  - congruence.
  - intros _. discriminate.
  - intros _. exists c. split; [exact Hin|]. apply jstr_eqb_eq. exact Heq.
Qed.

End CategoryLemmas.

(** [C4] Each requested name contributes the id of a directory entry
    exactly when some entry's name lower-cases to the same string as the
    requested name, and contributes nothing otherwise; the ids are those
    contributions concatenated, so an unmatched name does not stop the
    names after it from being resolved. *)
Theorem findCategoryIds_exact_case_insensitive :
  forall (to_lower : jstr -> jstr) (r : fetch_result) (categoryNames : list jstr),
    exists parts,
      findCategoryIds to_lower r (map JString categoryNames) = Some (concat parts) /\
      Forall2 (fun s part =>
                 (part = [] /\ forall c, In c (getStrapiCategories r) ->
                                         to_lower (cat_name c) <> to_lower s) \/
                 (exists c, In c (getStrapiCategories r) /\
                            to_lower (cat_name c) = to_lower s /\ part = [cat_id c]))
              categoryNames parts.
Proof.
  intros to_lower r ss. unfold findCategoryIds. apply resolve_ids_parts.
Qed.

(** [C10] The resolved ids follow the order of the requested names that
    matched, one id per matched name, each the id of a directory entry
    whose lower-cased name is that of the requested name. *)
Theorem findCategoryIds_order :
  forall (to_lower : jstr -> jstr) (r : fetch_result) (categoryNames : list jstr),
    exists ids,
      findCategoryIds to_lower r (map JString categoryNames) = Some ids /\
      Forall2 (fun s id => exists c, In c (getStrapiCategories r) /\
                                     to_lower (cat_name c) = to_lower s /\ id = cat_id c)
              (filter (fun s => existsb (fun c => jstr_eqb (to_lower (cat_name c)) (to_lower s))
                                        (getStrapiCategories r))
                      categoryNames)
              ids.
Proof.
  intros to_lower r ss. unfold findCategoryIds.
  destruct (resolve_ids_parts to_lower (getStrapiCategories r) ss) as [parts [Hr Hf]].
  exists (concat parts). split; [exact Hr|]. clear Hr.
  induction Hf as [|s part ss parts Hc Hf IH]; simpl; [constructor|].
  pose proof (contribution_matched _ _ _ _ Hc) as Hm.
  destruct (existsb _ _) eqn:E.
  - destruct Hc as [[-> _]|[c [Hin [Heq ->]]]].
    + exfalso. apply (proj1 Hm eq_refl). reflexivity.
    + simpl. constructor; [exists c; auto|exact IH].
  - destruct Hc as [[-> _]|[c [Hin [Heq ->]]]].
    + exact IH.
    + exfalso. assert (false = true) by (apply Hm; discriminate). discriminate.
Qed.

(** ** The request handlers *)

Lemma resolve_ids_empty_dir (to_lower : jstr -> jstr) (names : list json) :
  resolve_ids to_lower [] names = if existsb to_string_throws names then None else Some [].
Proof.
  induction names as [|n names IH]; simpl; [reflexivity|].
  destruct (to_string_throws n); simpl; [reflexivity|]. rewrite IH.
  destruct (existsb to_string_throws names); reflexivity.
Qed.

(** A resolved list of names holds none on which [ToString] throws. *)
Lemma resolve_ids_convertible (to_lower : jstr -> jstr) (dir : list category)
    (names : list json) (ids : list N) :
  resolve_ids to_lower dir names = Some ids -> existsb to_string_throws names = false.
Proof.
  revert ids; induction names as [|n names IH]; intros ids; simpl; [reflexivity|].
  destruct dir as [|c dir'].
  - destruct (to_string_throws n); [discriminate|]. simpl.
    destruct (resolve_ids to_lower [] names) as [ids'|] eqn:E; [|discriminate].
    intros _. exact (IH ids' eq_refl).
  - destruct n; try discriminate. simpl.
    destruct (resolve_ids to_lower (c :: dir') names) as [ids'|] eqn:E; [|discriminate].
    intros _. exact (IH ids' eq_refl).
Qed.

(** Every article posted so far is a draft. *)
Definition drafts_only (tr : list call) : Prop :=
  forall d, In (StrapiPost d) tr -> sd_publishedAt d = Some JNull.

Definition keeps_drafts {A} (m : M A) : Prop :=
  forall tr, drafts_only tr -> drafts_only (fst (m tr)).

Lemma ret_keeps {A} (a : A) : keeps_drafts (ret a).
Proof. intros tr H. exact H. Qed.

Lemma throw_keeps {A} (t : thrown) : keeps_drafts (@throw A t).
Proof. intros tr H. exact H. Qed.

Lemma of_option_keeps {A} (t : thrown) (o : option A) : keeps_drafts (of_option t o).
Proof. destruct o; [apply ret_keeps|apply throw_keeps]. Qed.

Lemma of_sum_keeps {A} (o : A + thrown) : keeps_drafts (of_sum o).
Proof. destruct o; [apply ret_keeps|apply throw_keeps]. Qed.

Lemma bind_keeps {A B} (m : M A) (k : A -> M B) :
  keeps_drafts m -> (forall a, keeps_drafts (k a)) -> keeps_drafts (bind m k).
Proof.
  intros Hm Hk tr H. unfold bind. specialize (Hm tr H).
  destruct (m tr) as [tr' [a|t]]; [apply Hk; exact Hm|exact Hm].
Qed.

Lemma perform_keeps (c : call) :
  (forall d, c = StrapiPost d -> sd_publishedAt d = Some JNull) -> keeps_drafts (perform c).
Proof.
  intros Hc tr H d Hin. simpl in Hin. apply in_app_or in Hin as [Hin|[Heq|[]]].
  - exact (H d Hin).
  - exact (Hc d Heq).
Qed.

Ltac keep :=
  repeat match goal with
  | |- keeps_drafts (bind _ _) => apply bind_keeps; [|intro]
  | |- keeps_drafts (ret _) => apply ret_keeps
  | |- keeps_drafts (throw _) => apply throw_keeps
  | |- keeps_drafts (of_option _ _) => apply of_option_keeps
  | |- keeps_drafts (of_sum _) => apply of_sum_keeps
  | |- keeps_drafts (perform _) =>
      apply perform_keeps; let d := fresh "d" in let H := fresh "H" in
      intros d H; first [discriminate H | injection H as <-; reflexivity]
  | |- keeps_drafts (match ?x with _ => _ end) => destruct x
  | |- keeps_drafts (if ?b then _ else _) => destruct b
  end.

Lemma api_generate_body_keeps to_lower regexp_search_i e body :
  keeps_drafts (api_generate_body to_lower regexp_search_i e body).
Proof.
  unfold api_generate_body, generateContent, createStrapiArticle, id_to_string,
    to_string_check, join_check. cbv zeta. keep.
Qed.

Lemma api_generate_v1_body_keeps e body : keeps_drafts (api_generate_v1_body e body).
Proof.
  unfold api_generate_v1_body, generateContent_v1, createStrapiArticle_v1, id_to_string,
    to_string_check. cbv zeta. keep.
Qed.

(** [C6] Every article either version of [/api/generate] posts to the
    CMS carries [publishedAt: null]: it is created as a draft. *)
Theorem generated_articles_are_drafts :
  forall (to_lower : jstr -> jstr) (regexp_search_i : jstr -> jstr -> option Z)
         (e : env) (body : json) (d : strapi_data),
    (In (StrapiPost d) (fst (api_generate to_lower regexp_search_i e body)) ->
     sd_publishedAt d = Some JNull) /\
    (In (StrapiPost d) (fst (api_generate_v1 e body)) -> sd_publishedAt d = Some JNull).
Proof.
  intros to_lower re e body d. split.
  - unfold api_generate.
    pose proof (api_generate_body_keeps to_lower re e body [] (fun d' H => match H with end)) as H.
    destruct (api_generate_body to_lower re e body []) as [tr r]. destruct r; apply H.
  - unfold api_generate_v1.
    pose proof (api_generate_v1_body_keeps e body [] (fun d' H => match H with end)) as H.
    destruct (api_generate_v1_body e body []) as [tr r]. destruct r; apply H.
Qed.

(** Sample requests and answers of the outside world. *)
Definition request (kvs : list (string * json)) : json :=
  JObject (map (fun '(k, v) => (js k, v)) kvs).

Definition sample_directory : list category :=
  [mkCategory 1 (js "Marketing"); mkCategory 2 (js "Tech")].

Definition sample_reply : jstr :=
  jq "{'articleBody': 'Opening\n\n## Goal\n\nMore text', 'linkedinSnippet': 'hook'}".

Definition sample_env : env :=
  mkEnv (FetchOk (Some sample_directory)) (LlmReplied sample_reply)
        (CmsCreated (Some (JNumber (js "42")))) (js "2026-10-17T09:30:00.000Z").

Definition fld (k : string) (v : json) : string * json := (k, v).

Definition sample_fields (category : string) : list (string * json) :=
  [fld "headline" (JString (js "X")); fld "summary" (JString (js "Y"));
   fld "category" (JString (js category)); fld "funnelType" (JString (js "MOF"))].

Definition sample_request : json :=
  request (sample_fields "Marketing,Tech" ++
           [fld "subheading1" (JString (js "Intro")); fld "subheading2" (JString (js "Body"));
            fld "subheading3" (JString (js "Goal")); fld "subheading4" (JString (js "End"))]).

Definition sample_request_v1 : json :=
  request (sample_fields "Marketing" ++ [fld "author" (JString (js "Ann"))]).

Lemma generated_articles_are_drafts_witness :
  (exists d, nth_error (fst (api_generate ascii_lower literal_regexp_search_i sample_env sample_request)) 2
             = Some (StrapiPost d) /\ sd_publishedAt d = Some JNull) /\
  (exists d, nth_error (fst (api_generate_v1 sample_env sample_request_v1)) 1
             = Some (StrapiPost d) /\ sd_publishedAt d = Some JNull).
Proof.
  split.
  - destruct (nth_error (fst (api_generate ascii_lower literal_regexp_search_i sample_env sample_request)) 2)
      as [[| |d]|] eqn:E; try (vm_compute in E; discriminate E).
    exists d. split; [reflexivity|].
    apply (proj1 (generated_articles_are_drafts ascii_lower literal_regexp_search_i sample_env
                    sample_request d)).
    apply nth_error_In with 2%nat. exact E.
  - destruct (nth_error (fst (api_generate_v1 sample_env sample_request_v1)) 1)
      as [[| |d]|] eqn:E; try (vm_compute in E; discriminate E).
    exists d. split; [reflexivity|].
    apply (proj2 (generated_articles_are_drafts ascii_lower literal_regexp_search_i sample_env
                    sample_request_v1 d)).
    apply nth_error_In with 1%nat. exact E.
Defined.

Definition failing_directory_env : env :=
  mkEnv FetchFailed (LlmReplied sample_reply) (CmsCreated (Some (JNumber (js "42"))))
        (js "2026-10-17T09:30:00.000Z").

(** A request whose only category is an object with its own [toString]
    property. *)
Definition unconvertible_category_request : json :=
  request [("headline", JString (js "X")); ("summary", JString (js "Y"));
           ("category", JArray [JObject [(js "toString", JNumber (js "1"))]]);
           ("funnelType", JString (js "MOF"))]%string.

(** [C9] counterexample: with a failing listing, a request whose category
    is an object with its own [toString] property is answered with a 500:
    the warning of line 215 cannot convert the name. *)
Lemma directory_failure_server_error :
  api_generate ascii_lower literal_regexp_search_i failing_directory_env
    unconvertible_category_request
  = ([CategoriesGet], resp 500 false (ServerError TypeErr)).
Proof. vm_compute. reflexivity. Qed.

(** [C9] When the listing of the category directory fails,
    [getStrapiCategories] answers an empty directory, so every request
    that reaches the listing call makes no other external call and is
    answered with the 400 [NoCategoriesMatched] response, unless one of
    its requested categories is a value on which [ToString] throws (an
    object with its own [toString] property, or an array holding one):
    such a request is answered with a 500. *)
Theorem directory_failure_is_no_categories_matched :
  forall (to_lower : jstr -> jstr) (regexp_search_i : jstr -> jstr -> option Z)
         (e : env) (body : json),
    env_categories e = FetchFailed ->
    In CategoriesGet (fst (api_generate to_lower regexp_search_i e body)) ->
    exists cats,
      parseCategories (get_field body "category") = Some cats /\
      api_generate to_lower regexp_search_i e body
      = ([CategoriesGet],
         if existsb to_string_throws cats then resp 500 false (ServerError TypeErr)
         else resp 400 false NoCategoriesMatched).
Proof.
  intros tl re e body Hf Hin. unfold api_generate, api_generate_body in *. cbv zeta in *.
  destruct (negb _) eqn:Hm; [simpl in Hin; contradiction|].
  unfold bind, of_option, ret, throw, perform in *.
  destruct (parseCategories (get_field body "category")) as [cats|]; [|simpl in Hin; contradiction].
  exists cats. split; [reflexivity|].
  unfold findCategoryIds. rewrite Hf. simpl getStrapiCategories. rewrite resolve_ids_empty_dir.
  destruct (existsb to_string_throws cats) eqn:E; [reflexivity|].
  unfold join_check. rewrite E. reflexivity.
Qed.

Lemma directory_failure_is_no_categories_matched_witness :
  env_categories failing_directory_env = FetchFailed /\
  In CategoriesGet (fst (api_generate ascii_lower literal_regexp_search_i failing_directory_env
                           sample_request)) /\
  exists cats,
    parseCategories (get_field sample_request "category") = Some cats /\
    api_generate ascii_lower literal_regexp_search_i failing_directory_env sample_request
    = ([CategoriesGet],
       if existsb to_string_throws cats then resp 500 false (ServerError TypeErr)
       else resp 400 false NoCategoriesMatched).
Proof.
  assert (Hf : env_categories failing_directory_env = FetchFailed) by reflexivity.
  assert (Hin : In CategoriesGet (fst (api_generate ascii_lower literal_regexp_search_i
                                         failing_directory_env sample_request)))
    by (vm_compute; left; reflexivity).
  split; [exact Hf|]. split; [exact Hin|].
  exact (directory_failure_is_no_categories_matched ascii_lower literal_regexp_search_i
           failing_directory_env sample_request Hf Hin).
Defined.

(** A request for a category the directory does not list. *)
Definition nonexistent_request : json := request (sample_fields "Nonexistent").

(** [C5] counterexample: the validation failure for a request whose
    categories resolve to no id is answered only after an external call,
    the listing of the category directory. *)
Lemma no_categories_matched_after_external_call :
  api_generate ascii_lower literal_regexp_search_i sample_env nonexistent_request
  = ([CategoriesGet], resp 400 false NoCategoriesMatched).
Proof. vm_compute. reflexivity. Qed.

(** [C5] A request with all required fields whose requested categories
    resolve to no id is answered with a 400 and [success: false] after
    exactly one external call, the listing of the category directory: no
    LLM call and no CMS write are made. *)
Theorem no_categories_matched_response :
  forall (to_lower : jstr -> jstr) (regexp_search_i : jstr -> jstr -> option Z)
         (e : env) (body : json) (cats : list json),
    truthy (get_field body "headline") && truthy (get_field body "summary") &&
    truthy (get_field body "category") && truthy (get_field body "funnelType") = true ->
    parseCategories (get_field body "category") = Some cats ->
    findCategoryIds to_lower (env_categories e) cats = Some [] ->
    api_generate to_lower regexp_search_i e body
    = ([CategoriesGet], resp 400 false NoCategoriesMatched).
Proof.
  intros tl re e body cats Hm Hp Hc. unfold api_generate, api_generate_body. cbv zeta.
  rewrite Hm. simpl negb. cbv iota.
  unfold bind, of_option, ret, perform. rewrite Hp, Hc.
  unfold join_check. rewrite (resolve_ids_convertible _ _ _ _ Hc). reflexivity.
Qed.

Lemma no_categories_matched_response_witness :
  api_generate ascii_lower literal_regexp_search_i sample_env nonexistent_request
  = ([CategoriesGet], resp 400 false NoCategoriesMatched).
Proof.
  apply (no_categories_matched_response ascii_lower literal_regexp_search_i sample_env
           nonexistent_request [JString (js "Nonexistent")]);
    vm_compute; reflexivity.
Defined.

(** A request for an existing category with no subheading at all. *)
Definition no_subheadings_request : json := request (sample_fields "Marketing").

(** [C8] counterexample: without subheading guidance the handler applies
    no word-count strategy: the request is refused with
    [TooFewSubheadings], and the partitioner itself, given no subheading,
    cuts a two-word body in the middle of the text, not at a word count. *)
Lemma no_word_count_strategy :
  api_generate ascii_lower literal_regexp_search_i sample_env no_subheadings_request
  = ([CategoriesGet], resp 400 false TooFewSubheadings) /\
  splitContentBySubheadings literal_regexp_search_i (js "hello world") []
  = inl (js "hello", js " world").
Proof. split; vm_compute; reflexivity. Qed.

(** [C8] Whenever fewer than four non-empty subheadings are supplied, no
    partitioning strategy runs at all: the handler makes no call other
    than the listing of the category directory (no LLM call, no CMS
    write) and answers with [success: false]; when the required fields
    are present and the requested categories resolve to at least one id,
    the answer is the 400 [TooFewSubheadings] response. *)
Theorem few_subheadings_no_generation :
  forall (to_lower : jstr -> jstr) (regexp_search_i : jstr -> jstr -> option Z)
         (e : env) (body : json) (vs : list jstr),
    valid_subheadings (request_subheadings body) = Some vs ->
    (length vs < 4)%nat ->
    (forall c, In c (fst (api_generate to_lower regexp_search_i e body)) -> c = CategoriesGet) /\
    success (snd (api_generate to_lower regexp_search_i e body)) = false /\
    (forall (cats : list json) (i : N) (ids : list N),
       truthy (get_field body "headline") && truthy (get_field body "summary") &&
       truthy (get_field body "category") && truthy (get_field body "funnelType") = true ->
       parseCategories (get_field body "category") = Some cats ->
       findCategoryIds to_lower (env_categories e) cats = Some (i :: ids) ->
       api_generate to_lower regexp_search_i e body
       = ([CategoriesGet], resp 400 false TooFewSubheadings)).
Proof.
  intros tl re e body vs Hv Hl.
  assert (Hb : Nat.ltb (length vs) 4 = true) by (apply Nat.ltb_lt; exact Hl).
  split; [|split].
  - unfold api_generate, api_generate_body. cbv zeta.
    destruct (negb _); [simpl; intros c []|].
    unfold bind, of_option, ret, throw, perform.
    destruct (parseCategories (get_field body "category")) as [cats|]; [|simpl; intros c []].
    destruct (findCategoryIds tl (env_categories e) cats) as [[|i ids]|].
    + unfold join_check. destruct (existsb _ _); simpl; intros c [H|[]]; auto.
    + rewrite Hv, Hb. simpl. intros c [H|[]]; auto.
    + simpl. intros c [H|[]]; auto.
  - unfold api_generate, api_generate_body. cbv zeta.
    destruct (negb _); [reflexivity|].
    unfold bind, of_option, ret, throw, perform.
    destruct (parseCategories (get_field body "category")) as [cats|]; [|reflexivity].
    destruct (findCategoryIds tl (env_categories e) cats) as [[|i ids]|].
    + unfold join_check. destruct (existsb _ _); reflexivity.
    + rewrite Hv, Hb. reflexivity.
    + reflexivity.
  - intros cats i ids Hm Hp Hc. unfold api_generate, api_generate_body. cbv zeta.
    rewrite Hm. simpl negb. cbv iota.
    unfold bind, of_option, ret, perform. rewrite Hp, Hc, Hv, Hb. reflexivity.
Qed.

Lemma few_subheadings_no_generation_witness :
  valid_subheadings (request_subheadings no_subheadings_request) = Some [] /\
  ((forall c, In c (fst (api_generate ascii_lower literal_regexp_search_i sample_env
                           no_subheadings_request)) -> c = CategoriesGet) /\
   success (snd (api_generate ascii_lower literal_regexp_search_i sample_env
                   no_subheadings_request)) = false /\
   api_generate ascii_lower literal_regexp_search_i sample_env no_subheadings_request
   = ([CategoriesGet], resp 400 false TooFewSubheadings)).
Proof.
  assert (Hv : valid_subheadings (request_subheadings no_subheadings_request) = Some [])
    by (vm_compute; reflexivity).
  split; [exact Hv|].
  destruct (few_subheadings_no_generation ascii_lower literal_regexp_search_i sample_env
              no_subheadings_request [] Hv ltac:(simpl; lia)) as [H1 [H2 H3]].
  split; [exact H1|]. split; [exact H2|].
  apply (H3 [JString (js "Marketing")] 1%N []); vm_compute; reflexivity.
Defined.

(** ** Code fences *)

Lemma drop_js_ws_length (u : jstr) : (length (drop_js_ws u) <= length u)%nat.
Proof. induction u as [|x u IH]; simpl; [lia|destruct (is_js_ws x); simpl; lia]. Qed.

Lemma replace_ws_go_nil (lit : jstr) (f : nat) : replace_ws_go lit f [] = [].
Proof. destruct f; reflexivity. Qed.

Lemma replace_ws_go_fuel (lit : jstr) : lit <> [] ->
  forall f1 f2 s, (length s <= f1)%nat -> (length s <= f2)%nat ->
  replace_ws_go lit f1 s = replace_ws_go lit f2 s.
Proof.
  intros Hl f1. induction f1 as [|f1 IH]; intros f2 s H1 H2.
  - destruct s; [rewrite !replace_ws_go_nil; reflexivity|simpl in H1; lia].
  - destruct s as [|c r]; [rewrite !replace_ws_go_nil; reflexivity|].
    destruct f2 as [|f2]; [simpl in H2; lia|]. simpl.
    destruct (prefixb lit (c :: r)).
    + apply IH.
      * pose proof (drop_js_ws_length (skipn (length lit) (c :: r))).
        rewrite length_skipn in H. destruct lit; [congruence|]. simpl in *. lia.
      * pose proof (drop_js_ws_length (skipn (length lit) (c :: r))).
        rewrite length_skipn in H. destruct lit; [congruence|]. simpl in *. lia.
    + f_equal. apply IH; simpl in *; lia.
Qed.

Lemma replace_ws_go_step (lit : jstr) (f : nat) (c : N) (r : jstr) :
  replace_ws_go lit (S f) (c :: r)
  = if prefixb lit (c :: r) then replace_ws_go lit f (drop_js_ws (skipn (length lit) (c :: r)))
    else c :: replace_ws_go lit f r.
Proof. reflexivity. Qed.

Lemma replace_global_ws_nil (lit : jstr) : replace_global_ws lit [] = [].
Proof. reflexivity. Qed.

Lemma prefixb_nil_r (lit : jstr) : lit <> [] -> prefixb lit [] = false.
Proof. destruct lit; [congruence|reflexivity]. Qed.

Lemma replace_global_ws_match (lit s : jstr) :
  lit <> [] -> prefixb lit s = true ->
  replace_global_ws lit s = replace_global_ws lit (drop_js_ws (skipn (length lit) s)).
Proof.
  intros Hl Hp. destruct s as [|c r]; [rewrite prefixb_nil_r in Hp; congruence|].
  unfold replace_global_ws at 1. rewrite replace_ws_go_step, Hp. apply replace_ws_go_fuel; [exact Hl| |lia].
  pose proof (drop_js_ws_length (skipn (length lit) (c :: r))).
  rewrite length_skipn in H. destruct lit; [congruence|]. simpl in *. lia.
Qed.

Lemma replace_global_ws_nomatch (lit : jstr) (c : N) (r : jstr) :
  lit <> [] -> prefixb lit (c :: r) = false ->
  replace_global_ws lit (c :: r) = c :: replace_global_ws lit r.
Proof.
  intros Hl Hp. unfold replace_global_ws at 1. rewrite replace_ws_go_step, Hp. f_equal.
Qed.

Lemma prefixb_app_stop (lit a : jstr) (c : N) (t : jstr) :
  ~ In c lit -> prefixb lit (a ++ c :: t) = prefixb lit a.
Proof.
  revert a. induction lit as [|y l IH]; intros a Hc; [reflexivity|].
  destruct a as [|x a]; simpl.
  - destruct (N.eqb_spec y c); [subst; exfalso; apply Hc; left; reflexivity|reflexivity].
  - rewrite IH; [reflexivity|intro H; apply Hc; right; exact H].
Qed.

Lemma prefixb_length (lit a : jstr) : prefixb lit a = true -> (length lit <= length a)%nat.
Proof.
  revert a. induction lit as [|y l IH]; intros a H; [simpl; lia|].
  destruct a as [|x a]; [discriminate|]. simpl in *.
  apply andb_prop in H as [_ H]. apply IH in H. lia.
Qed.

Lemma drop_js_ws_app_stop (u : jstr) (c : N) (t : jstr) :
  is_js_ws c = false -> drop_js_ws (u ++ c :: t) = drop_js_ws u ++ c :: t.
Proof.
  intros Hc. induction u as [|x u IH]; simpl; [rewrite Hc; reflexivity|].
  destruct (is_js_ws x); [exact IH|reflexivity].
Qed.

Lemma replace_global_ws_app_stop (lit : jstr) (c : N) (t : jstr) :
  lit <> [] -> ~ In c lit -> is_js_ws c = false ->
  forall a, replace_global_ws lit (a ++ c :: t)
            = replace_global_ws lit a ++ replace_global_ws lit (c :: t).
Proof.
  intros Hl Hc Hw a. remember (length a) as n eqn:Hn.
  revert a Hn. induction n as [n IH] using lt_wf_ind. intros a Hn.
  destruct a as [|x a]; [reflexivity|].
  destruct (prefixb lit (x :: a)) eqn:Hp.
  - rewrite (replace_global_ws_match lit (x :: a)) by assumption.
    rewrite replace_global_ws_match; [|exact Hl|rewrite prefixb_app_stop; assumption].
    pose proof (prefixb_length _ _ Hp) as Hlen.
    rewrite skipn_app.
    replace (length lit - length (x :: a))%nat with 0%nat by lia. simpl skipn at 2.
    rewrite drop_js_ws_app_stop by exact Hw.
    apply (IH (length (drop_js_ws (skipn (length lit) (x :: a))))); [|reflexivity].
    pose proof (drop_js_ws_length (skipn (length lit) (x :: a))).
    rewrite length_skipn in H. destruct lit; [congruence|]. simpl in *. lia.
  - rewrite <- app_comm_cons.
    rewrite replace_global_ws_nomatch; [|exact Hl|rewrite app_comm_cons, prefixb_app_stop; assumption].
    rewrite replace_global_ws_nomatch by assumption.
    rewrite (IH (length a)) by (simpl in Hn; lia). reflexivity.
Qed.

Lemma replace_global_ws_app_free (lit : jstr) (u t : jstr) :
  lit <> [] -> (forall x, In x u -> hd_error lit <> Some x) ->
  replace_global_ws lit (u ++ t) = u ++ replace_global_ws lit t.
Proof.
  intros Hl. induction u as [|x u IH]; intros Hu; [reflexivity|].
  rewrite <- app_comm_cons, replace_global_ws_nomatch; [|exact Hl|].
  - rewrite IH; [reflexivity|intros y Hy; apply Hu; right; exact Hy].
  - destruct lit as [|y l]; [congruence|]. simpl.
    destruct (N.eqb_spec y x); [|reflexivity].
    exfalso. apply (Hu x); [left; reflexivity|simpl; congruence].
Qed.

Lemma drop_js_ws_all_ws (u t : jstr) :
  forallb is_js_ws u = true -> drop_js_ws (u ++ t) = drop_js_ws t.
Proof.
  induction u as [|x u IH]; intros H; [reflexivity|].
  simpl in *. apply andb_prop in H as [Hx H]. rewrite Hx. exact (IH H).
Qed.

Lemma ws_not_backtick (u : jstr) :
  forallb is_js_ws u = true -> forall x, In x u -> hd_error FENCE <> Some x.
Proof.
  intros H x Hx Heq. injection Heq as <-.
  rewrite forallb_forall in H. specialize (H _ Hx). discriminate H.
Qed.

Lemma forallb_rev_js (f : N -> bool) (u : jstr) : forallb f (rev u) = forallb f u.
Proof.
  induction u as [|x u IH]; [reflexivity|].
  simpl. rewrite forallb_app, IH. simpl. rewrite andb_true_r, andb_comm. reflexivity.
Qed.

Lemma trim_braces (ws1 x ws2 : jstr) :
  forallb is_js_ws ws1 = true -> forallb is_js_ws ws2 = true ->
  trim (ws1 ++ LBRACE :: x ++ RBRACE :: ws2) = LBRACE :: x ++ [RBRACE].
Proof.
  intros H1 H2. unfold trim, trim_start, trim_end.
  rewrite drop_js_ws_all_ws by exact H1. simpl drop_js_ws at 2.
  replace (LBRACE :: x ++ RBRACE :: ws2) with ((LBRACE :: x ++ [RBRACE]) ++ ws2)
    by (simpl; rewrite <- app_assoc; reflexivity).
  rewrite rev_app_distr, drop_js_ws_all_ws by (rewrite forallb_rev_js; exact H2).
  replace (rev (LBRACE :: x ++ [RBRACE])) with (RBRACE :: rev (LBRACE :: x))
    by (rewrite app_comm_cons, rev_app_distr; reflexivity).
  change (drop_js_ws (RBRACE :: rev (LBRACE :: x))) with (RBRACE :: rev (LBRACE :: x)).
  change (rev (RBRACE :: rev (LBRACE :: x))) with (rev (rev (LBRACE :: x)) ++ [RBRACE]).
  rewrite rev_involutive. reflexivity.
Qed.

Lemma replace_global_ws_free (lit u : jstr) :
  lit <> [] -> (forall x, In x u -> hd_error lit <> Some x) -> replace_global_ws lit u = u.
Proof.
  intros Hl Hu. rewrite <- (app_nil_r u) at 1.
  rewrite replace_global_ws_app_free by assumption. apply app_nil_r.
Qed.

Lemma prefixb_head (lit : jstr) (h c : N) (r : jstr) :
  hd_error lit = Some h -> h <> c -> prefixb lit (c :: r) = false.
Proof.
  destruct lit as [|y l]; [discriminate|]. intros Hh Hc. injection Hh as ->. simpl.
  destruct (N.eqb_spec h c); [contradiction|reflexivity].
Qed.

Lemma skipn_length_app (a b : jstr) : skipn (length a) (a ++ b) = b.
Proof. induction a as [|x a IH]; [reflexivity|exact IH]. Qed.

(** A fence literal: it starts with a backtick and holds no brace. *)
Definition fence_like (lit : jstr) : Prop :=
  hd_error lit = Some BACKTICK /\ ~ In LBRACE lit /\ ~ In RBRACE lit.

Lemma FENCE_fence_like : fence_like FENCE.
Proof. split; [reflexivity|split; intros H; simpl in H; intuition discriminate]. Qed.

Lemma FENCE_JSON_fence_like : fence_like FENCE_JSON.
Proof. split; [reflexivity|split; intros H; simpl in H; intuition discriminate]. Qed.

Lemma replace_braces (lit ws1 body ws2 tl : jstr) :
  fence_like lit -> forallb is_js_ws ws1 = true -> forallb is_js_ws ws2 = true ->
  replace_global_ws lit (ws1 ++ LBRACE :: body ++ RBRACE :: ws2 ++ tl)
  = ws1 ++ LBRACE :: replace_global_ws lit body ++ RBRACE :: ws2 ++ replace_global_ws lit tl.
Proof.
  intros (Hh & HL & HR) H1 H2.
  assert (Hl : lit <> []) by (intros ->; discriminate Hh).
  assert (Hfree : forall u, forallb is_js_ws u = true -> forall x, In x u -> hd_error lit <> Some x).
  { intros u Hu x Hx. rewrite Hh. intros Heq. injection Heq as <-.
    rewrite forallb_forall in Hu. specialize (Hu _ Hx). discriminate Hu. }
  rewrite replace_global_ws_app_free by (exact Hl || exact (Hfree _ H1)). f_equal.
  rewrite replace_global_ws_nomatch; [|exact Hl|apply (prefixb_head _ BACKTICK); [exact Hh|discriminate]].
  f_equal.
  rewrite replace_global_ws_app_stop by (try exact Hl; try exact HR; reflexivity). f_equal.
  rewrite replace_global_ws_nomatch; [|exact Hl|apply (prefixb_head _ BACKTICK); [exact Hh|discriminate]].
  f_equal. apply replace_global_ws_app_free; [exact Hl|exact (Hfree _ H2)].
Qed.

Lemma replace_braces_nil (lit body ws2 tl : jstr) :
  fence_like lit -> forallb is_js_ws ws2 = true ->
  replace_global_ws lit (LBRACE :: body ++ RBRACE :: ws2 ++ tl)
  = LBRACE :: replace_global_ws lit body ++ RBRACE :: ws2 ++ replace_global_ws lit tl.
Proof. intros Hf H2. exact (replace_braces lit [] body ws2 tl Hf eq_refl H2). Qed.

Lemma ws_ne (w : N) (k : N) : is_js_ws w = true -> is_js_ws k = false -> (k =? w)%N = false.
Proof. intros Hw Hk. destruct (N.eqb_spec k w); [subst; congruence|reflexivity]. Qed.

Lemma prefixb_cons (a b : N) (p s : jstr) : prefixb (a :: p) (b :: s) = (a =? b)%N && prefixb p s.
Proof. reflexivity. Qed.

Lemma replace_json_fence_ws (ws : jstr) :
  forallb is_js_ws ws = true -> replace_global_ws FENCE_JSON (FENCE ++ ws) = FENCE ++ ws.
Proof.
  intros H. destruct ws as [|w ws]; [reflexivity|].
  pose proof H as Hall. simpl in H. apply andb_prop in H as [Hw _].
  pose proof (ws_ne w 96 Hw eq_refl) as H96.
  pose proof (ws_ne w 106 Hw eq_refl) as H106.
  assert (Hl : FENCE_JSON <> []) by discriminate.
  unfold FENCE. cbn [app].
  change FENCE_JSON with (96 :: 96 :: 96 :: 106 :: js "son")%N.
  rewrite replace_global_ws_nomatch by (try discriminate; rewrite !prefixb_cons, H106; reflexivity).
  rewrite replace_global_ws_nomatch by (try discriminate; rewrite !prefixb_cons, H96; reflexivity).
  rewrite replace_global_ws_nomatch by (try discriminate; rewrite !prefixb_cons, H96; reflexivity).
  rewrite replace_global_ws_free; [reflexivity|discriminate|].
  intros x Hx Heq. injection Heq as <-. rewrite forallb_forall in Hall.
  specialize (Hall _ Hx). discriminate Hall.
Qed.

Lemma strip_fences_braces (ws1 body ws2 : jstr) :
  forallb is_js_ws ws1 = true -> forallb is_js_ws ws2 = true ->
  strip_fences (ws1 ++ [LBRACE] ++ body ++ [RBRACE] ++ ws2)
  = LBRACE :: replace_global_ws FENCE (replace_global_ws FENCE_JSON body) ++ [RBRACE].
Proof.
  intros H1 H2. unfold strip_fences. cbn [app].
  rewrite <- (app_nil_r ws2).
  rewrite replace_braces by (exact FENCE_JSON_fence_like || assumption || (rewrite app_nil_r; assumption)).
  rewrite replace_global_ws_nil.
  rewrite replace_braces by (exact FENCE_fence_like || assumption || (rewrite app_nil_r; assumption)).
  rewrite replace_global_ws_nil, app_nil_r. apply trim_braces; assumption.
Qed.

Lemma strip_fences_fenced_braces (tag ws1 body ws2 : jstr) :
  tag = [] \/ tag = js "json" ->
  forallb is_js_ws ws1 = true -> forallb is_js_ws ws2 = true ->
  strip_fences (FENCE ++ tag ++ ws1 ++ [LBRACE] ++ body ++ [RBRACE] ++ ws2 ++ FENCE)
  = LBRACE :: replace_global_ws FENCE (replace_global_ws FENCE_JSON body) ++ [RBRACE].
Proof.
  intros Htag H1 H2. unfold strip_fences. cbn [app].
  assert (Hdrop : forall x, drop_js_ws (ws1 ++ LBRACE :: x) = LBRACE :: x)
    by (intros x; rewrite drop_js_ws_all_ws by exact H1; reflexivity).
  destruct Htag as [-> | ->].
  - rewrite app_nil_l, app_assoc.
    rewrite replace_global_ws_app_stop by (try discriminate; try exact (proj1 (proj2 FENCE_JSON_fence_like)); reflexivity).
    rewrite replace_json_fence_ws by exact H1.
    rewrite (replace_braces_nil FENCE_JSON) by (exact FENCE_JSON_fence_like || reflexivity || assumption).
    change (replace_global_ws FENCE_JSON FENCE) with FENCE. cbn [app].
    rewrite <- app_assoc, replace_global_ws_match by (try discriminate; reflexivity).
    rewrite skipn_length_app. cbn [app]. rewrite Hdrop.
    rewrite (replace_braces_nil FENCE) by (exact FENCE_fence_like || reflexivity || assumption).
    change (replace_global_ws FENCE FENCE) with (@nil N). rewrite app_nil_r.
    apply (trim_braces []); [reflexivity|exact H2].
  - change (FENCE ++ js "json" ++ ws1 ++ LBRACE :: body ++ RBRACE :: ws2 ++ FENCE)
      with (FENCE_JSON ++ ws1 ++ LBRACE :: body ++ RBRACE :: ws2 ++ FENCE).
    rewrite (replace_global_ws_match FENCE_JSON) by (try discriminate; reflexivity).
    rewrite skipn_length_app, Hdrop.
    rewrite (replace_braces_nil FENCE_JSON) by (exact FENCE_JSON_fence_like || reflexivity || assumption).
    change (replace_global_ws FENCE_JSON FENCE) with FENCE. cbn [app].
    rewrite (replace_braces_nil FENCE) by (exact FENCE_fence_like || reflexivity || assumption).
    change (replace_global_ws FENCE FENCE) with (@nil N). rewrite app_nil_r.
    apply (trim_braces []); [reflexivity|exact H2].
Qed.

(** [C7] A reply wrapped in triple-backtick fences, tagged [json] or
    not, with whitespace between the fences and the braces, is parsed
    exactly as the same text without the fences. *)
Theorem fenced_same_as_unfenced :
  forall tag ws1 body ws2 : jstr,
    tag = [] \/ tag = js "json" ->
    forallb is_js_ws ws1 = true -> forallb is_js_ws ws2 = true ->
    parseClaudeResponse (FENCE ++ tag ++ ws1 ++ [LBRACE] ++ body ++ [RBRACE] ++ ws2 ++ FENCE)
    = parseClaudeResponse (ws1 ++ [LBRACE] ++ body ++ [RBRACE] ++ ws2).
Proof.
  intros tag ws1 body ws2 Htag H1 H2. unfold parseClaudeResponse.
  rewrite strip_fences_fenced_braces, strip_fences_braces by assumption. reflexivity.
Qed.

Definition sample_object_body : jstr :=
  jq "'articleBody': 'para1\n\npara2', 'linkedinSnippet': 'hook'".

Lemma fenced_same_as_unfenced_witness :
  parseClaudeResponse (FENCE ++ js "json" ++ [10%N] ++ [LBRACE] ++ sample_object_body ++ [RBRACE]
                       ++ [10%N] ++ FENCE)
  = parseClaudeResponse ([10%N] ++ [LBRACE] ++ sample_object_body ++ [RBRACE] ++ [10%N]) /\
  parseClaudeResponse ([10%N] ++ [LBRACE] ++ sample_object_body ++ [RBRACE] ++ [10%N])
  = Parsed (two_fields (js "para1" ++ [10%N; 10%N] ++ js "para2") (js "hook")).
Proof.
  split.
  - apply fenced_same_as_unfenced; [right; reflexivity|reflexivity|reflexivity].
  - vm_compute. reflexivity.
Defined.

(* ------------------------------------------------------------------ *)
(** * Direct parsing of unfenced JSON *)

Lemma length_app_eq_nil (a b : jstr) : length (a ++ b) = length b -> a = [].
Proof. rewrite length_app. destruct a; simpl; [reflexivity|lia]. Qed.

Lemma app_inv_tail_jstr (a b t : jstr) : a ++ t = b ++ t -> a = b.
Proof. apply app_inv_tail. Qed.

Lemma json_ws_js_ws (c : N) : is_json_ws c = true -> is_js_ws c = true.
Proof.
  unfold is_json_ws. rewrite !orb_true_iff. intros [[[H|H]|H]|H]; apply N.eqb_eq in H; subst; reflexivity.
Qed.

Lemma skip_json_ws_split (s : jstr) :
  exists w, s = w ++ skip_json_ws s /\ forallb is_json_ws w = true.
Proof.
  induction s as [|c r [w [E F]]]; [exists []; split; reflexivity|].
  simpl. destruct (is_json_ws c) eqn:Hc.
  - exists (c :: w). simpl. rewrite Hc, F, <- E. split; reflexivity.
  - exists []. split; reflexivity.
Qed.

Lemma skip_json_ws_length (s : jstr) : (length (skip_json_ws s) <= length s)%nat.
Proof.
  destruct (skip_json_ws_split s) as [w [E _]]. rewrite E at 2. rewrite length_app. lia.
Qed.

Lemma skip_json_ws_trunc (x t r : jstr) : skip_json_ws (x ++ t) = r ++ t -> skip_json_ws x = r.
Proof.
  induction x as [|c x IH]; simpl; intros H.
  - destruct (skip_json_ws_split t) as [w [E _]]. rewrite H in E.
    apply (f_equal (@length N)) in E. rewrite !length_app in E.
    destruct r; [reflexivity|simpl in E; lia].
  - destruct (is_json_ws c); [exact (IH H)|].
    apply (app_inv_tail_jstr _ _ t). exact H.
Qed.

Lemma skip_json_ws_ws (w t : jstr) :
  forallb is_json_ws w = true -> skip_json_ws (w ++ t) = skip_json_ws t.
Proof.
  induction w as [|c w IH]; simpl; intros H; [reflexivity|].
  apply andb_prop in H as [Hc H]. rewrite Hc. exact (IH H).
Qed.

(** ** Number lexemes *)

Lemma digits_cat (s d r : jstr) : digits s = (d, r) -> s = d ++ r.
Proof.
  revert d r. induction s as [|c s IH]; simpl; intros d r H.
  - injection H as <- <-. reflexivity.
  - destruct (is_digit c).
    + destruct (digits s) as [d' r'] eqn:E. injection H as <- <-. simpl. f_equal. apply IH. reflexivity.
    + injection H as <- <-. reflexivity.
Qed.

Lemma digits_all (s d r : jstr) : digits s = (d, r) -> forallb is_digit d = true.
Proof.
  revert d r. induction s as [|c s IH]; simpl; intros d r H.
  - injection H as <- <-. reflexivity.
  - destruct (is_digit c) eqn:Hc.
    + destruct (digits s) as [d' r'] eqn:E. injection H as <- <-. simpl. rewrite Hc. exact (IH _ _ eq_refl).
    + injection H as <- <-. reflexivity.
Qed.

Lemma digits_trunc (x t d r : jstr) : digits (x ++ t) = (d, r ++ t) -> digits x = (d, r).
Proof.
  revert d r. induction x as [|c x IH]; simpl; intros d r H.
  - apply digits_cat in H. rewrite app_assoc in H.
    pose proof (length_app_eq_nil (d ++ r) t) as L. rewrite <- H in L.
    specialize (L eq_refl). apply app_eq_nil in L as [-> ->]. reflexivity.
  - destruct (is_digit c).
    + revert H. case_eq (digits (x ++ t)). intros d' r' E H. injection H as <- ->.
      rewrite (IH d' r E). reflexivity.
    + injection H as <- H. f_equal. f_equal. apply (app_inv_tail_jstr _ _ t). exact H.
Qed.

Lemma parse_int_cat (s i r : jstr) : parse_int s = Some (i, r) -> s = i ++ r /\ i <> [].
Proof.
  unfold parse_int. destruct s as [|c s]; [discriminate|].
  destruct (c =? 48)%N; [intros H; injection H as <- <-; split; [reflexivity|discriminate]|].
  destruct (is_digit c); [|discriminate].
  destruct (digits s) as [d rest] eqn:E. intros H; injection H as <- <-.
  apply digits_cat in E. subst. split; [reflexivity|discriminate].
Qed.

Lemma parse_frac_cat (s f r : jstr) : parse_frac s = Some (f, r) -> s = f ++ r.
Proof.
  unfold parse_frac. destruct s as [|c s]; [intros H; injection H as <- <-; reflexivity|].
  destruct (c =? 46)%N; [|intros H; injection H as <- <-; reflexivity].
  destruct (digits s) as [[|d0 d] rest] eqn:E; [discriminate|].
  intros H; injection H as <- <-. apply digits_cat in E. rewrite E. reflexivity.
Qed.

Lemma parse_exp_cat (s e r : jstr) : parse_exp s = Some (e, r) -> s = e ++ r.
Proof.
  unfold parse_exp. destruct s as [|c s]; [intros H; injection H as <- <-; reflexivity|].
  destruct ((c =? 101)%N || (c =? 69)%N); [|intros H; injection H as <- <-; reflexivity].
  destruct s as [|d0 s].
  - simpl. discriminate.
  - destruct ((d0 =? 43)%N || (d0 =? 45)%N).
    + destruct (digits s) as [[|x d] rest] eqn:E; [discriminate|].
      intros H; injection H as <- <-. apply digits_cat in E. rewrite E. reflexivity.
    + destruct (digits (d0 :: s)) as [[|x d] rest] eqn:E; [discriminate|].
      intros H; injection H as <- <-. apply digits_cat in E. rewrite E. reflexivity.
Qed.

Lemma parse_number_cat (s lex r : jstr) : parse_number s = Some (lex, r) -> s = lex ++ r /\ lex <> [].
Proof.
  unfold parse_number.
  destruct (match s with c :: r => if (c =? 45)%N then ([c], r) else ([], s) | [] => ([], []) end)
    as [minus s1] eqn:E.
  assert (Hs : s = minus ++ s1).
  { destruct s as [|c s']; [injection E as <- <-; reflexivity|].
    destruct (c =? 45)%N; injection E as <- <-; reflexivity. }
  clear E.
  destruct (parse_int s1) as [[i s2]|] eqn:Ei; [|discriminate].
  destruct (parse_frac s2) as [[f s3]|] eqn:Ef; [|discriminate].
  destruct (parse_exp s3) as [[e s4]|] eqn:Ee; [|discriminate].
  intros H; injection H as <- <-.
  apply parse_int_cat in Ei as [Ei Hi]. apply parse_frac_cat in Ef. apply parse_exp_cat in Ee.
  subst s. subst. split; [rewrite !app_assoc; reflexivity|].
  destruct minus; [destruct i; [congruence|discriminate]|discriminate].
Qed.

Lemma length_contra (a r t : jstr) : t = a ++ r ++ t -> a = [] /\ r = [].
Proof.
  intros H. apply (f_equal (@length N)) in H. rewrite !length_app in H.
  destruct a, r; simpl in H; [split; reflexivity|lia|lia|lia].
Qed.

Lemma parse_int_trunc (x t i r : jstr) :
  parse_int (x ++ t) = Some (i, r ++ t) -> parse_int x = Some (i, r).
Proof.
  intros H. destruct x as [|c x].
  - apply parse_int_cat in H as [H Hi]. apply length_contra in H as [-> _]. congruence.
  - revert H. unfold parse_int. cbn [app].
    destruct (c =? 48)%N.
    + intros H. injection H as <- H. f_equal. f_equal. apply (app_inv_tail_jstr _ _ t). exact H.
    + destruct (is_digit c); [|discriminate].
      case_eq (digits (x ++ t)). intros d rest E H. injection H as <- ->.
      rewrite (digits_trunc _ _ _ _ E). reflexivity.
Qed.

Lemma parse_frac_trunc (x t f r : jstr) :
  parse_frac (x ++ t) = Some (f, r ++ t) -> parse_frac x = Some (f, r).
Proof.
  intros H. destruct x as [|c x].
  - apply parse_frac_cat in H. apply length_contra in H as [-> ->]. reflexivity.
  - revert H. unfold parse_frac. cbn [app].
    destruct (c =? 46)%N.
    + case_eq (digits (x ++ t)). intros [|d0 d] rest E H; [discriminate|].
      injection H as <- ->. rewrite (digits_trunc _ _ _ _ E). reflexivity.
    + intros H. injection H as <- H. f_equal. f_equal. apply (app_inv_tail_jstr _ _ t). exact H.
Qed.

Lemma parse_exp_trunc (x t e r : jstr) :
  parse_exp (x ++ t) = Some (e, r ++ t) -> parse_exp x = Some (e, r).
Proof.
  intros H. destruct x as [|c x].
  - apply parse_exp_cat in H. apply length_contra in H as [-> ->]. reflexivity.
  - pose proof (parse_exp_cat _ _ _ H) as Hc.
    rewrite app_assoc in Hc. apply app_inv_tail_jstr in Hc.
    revert H. unfold parse_exp. cbn [app].
    destruct ((c =? 101)%N || (c =? 69)%N).
    + destruct x as [|d0 x].
      * cbn [app]. destruct t as [|d0 t]; [discriminate|].
        destruct ((d0 =? 43)%N || (d0 =? 45)%N).
        -- destruct (digits t) as [[|y d] rest]; [discriminate|].
           intros H. injection H as <- _. apply (f_equal (@length N)) in Hc.
           simpl in Hc. rewrite !length_app in Hc. simpl in Hc. lia.
        -- destruct (digits (d0 :: t)) as [[|y d] rest]; [discriminate|].
           intros H. injection H as <- _. apply (f_equal (@length N)) in Hc.
           simpl in Hc. rewrite !length_app in Hc. simpl in Hc. lia.
      * cbn [app]. destruct ((d0 =? 43)%N || (d0 =? 45)%N).
        -- case_eq (digits (x ++ t)). intros [|y d] rest E H; [discriminate|].
           injection H as <- ->. rewrite (digits_trunc _ _ _ _ E). reflexivity.
        -- change (d0 :: x ++ t) with ((d0 :: x) ++ t).
           case_eq (digits ((d0 :: x) ++ t)). intros [|y d] rest E H; [discriminate|].
           injection H as <- ->. rewrite (digits_trunc _ _ _ _ E). reflexivity.
    + intros H. injection H as <- H. f_equal. f_equal. apply (app_inv_tail_jstr _ _ t). exact H.
Qed.

Ltac number_chain y :=
  lazymatch goal with
  | |- match parse_int ?s1 with _ => _ end = Some (?lex, ?r ++ ?t) -> _ =>
    destruct (parse_int s1) as [[i s2]|] eqn:Ei; [|discriminate];
    destruct (parse_frac s2) as [[f s3]|] eqn:Ef; [|discriminate];
    destruct (parse_exp s3) as [[e s4]|] eqn:Ee; [|discriminate];
    let H := fresh "H" in
    intros H; injection H as <- ->;
    pose proof (parse_exp_cat _ _ _ Ee) as C3; pose proof (parse_frac_cat _ _ _ Ef) as C2;
    subst s3 s2;
    rewrite (app_assoc e r t) in Ee, Ef, Ei; rewrite (app_assoc f (e ++ r) t) in Ef, Ei;
    rewrite (parse_int_trunc y t _ _ Ei), (parse_frac_trunc _ _ _ _ Ef), (parse_exp_trunc _ _ _ _ Ee);
    reflexivity
  end.

Lemma parse_number_trunc (x t lex r : jstr) :
  parse_number (x ++ t) = Some (lex, r ++ t) -> parse_number x = Some (lex, r).
Proof.
  intros H. destruct x as [|c x].
  - apply parse_number_cat in H as [H Hl]. apply length_contra in H as [-> _]. congruence.
  - revert H. unfold parse_number. cbn [app]. cbv beta iota.
    destruct (c =? 45)%N; cbv beta iota; [number_chain x|number_chain (c :: x)].
Qed.

(** ** String literals *)

Lemma pbs_solid (s str rest : jstr) :
  parse_string_body s = Some (str, rest) -> exists p, s = p ++ QUOTE :: rest.
Proof.
  remember (length s) as k eqn:Hk. revert s str rest Hk.
  induction k as [k IH] using lt_wf_ind. intros s str rest Hk H.
  destruct s as [|c r]; [discriminate|]. simpl in H.
  destruct (N.eqb_spec c QUOTE) as [->|Hq].
  { injection H as <- <-. exists []. reflexivity. }
  destruct (c =? BACKSLASH)%N.
  - destruct r as [|e r']; [discriminate|].
    destruct (e =? 117)%N.
    + destruct r' as [|h1 [|h2 [|h3 [|h4 r'']]]]; try discriminate.
      destruct (hex4 h1 h2 h3 h4); [|discriminate].
      destruct (parse_string_body r'') as [[str' rest']|] eqn:E; [|discriminate].
      injection H as <- ->.
      destruct (IH (length r'') ltac:(simpl in Hk; lia) r'' str' rest eq_refl E) as [p Hp].
      exists (c :: e :: h1 :: h2 :: h3 :: h4 :: p). rewrite Hp. reflexivity.
    + destruct (simple_escape e); [|discriminate].
      destruct (parse_string_body r') as [[str' rest']|] eqn:E; [|discriminate].
      injection H as <- ->.
      destruct (IH (length r') ltac:(simpl in Hk; lia) r' str' rest eq_refl E) as [p Hp].
      exists (c :: e :: p). rewrite Hp. reflexivity.
  - destruct (c <? 32)%N; [discriminate|].
    destruct (parse_string_body r) as [[str' rest']|] eqn:E; [|discriminate].
    injection H as <- ->.
    destruct (IH (length r) ltac:(simpl in Hk; lia) r str' rest eq_refl E) as [p Hp].
    exists (c :: p). rewrite Hp. reflexivity.
Qed.

Lemma pbs_shorter (s str rest : jstr) :
  parse_string_body s = Some (str, rest) -> (length rest < length s)%nat.
Proof.
  intros H. destruct (pbs_solid _ _ _ H) as [p ->]. rewrite length_app. simpl. lia.
Qed.

Lemma hex_value_quote : hex_value QUOTE = None.
Proof. reflexivity. Qed.

(** The string ending at a closing quote does not depend on what follows it. *)
Lemma pbs_local (p u u' str : jstr) :
  parse_string_body (p ++ QUOTE :: u) = Some (str, u) ->
  parse_string_body (p ++ QUOTE :: u') = Some (str, u').
Proof.
  remember (length p) as k eqn:Hk. revert p str Hk.
  induction k as [k IH] using lt_wf_ind. intros p str Hk H.
  destruct p as [|c p1]; [simpl in *; injection H as <-; reflexivity|].
  cbn [app] in *. simpl in H |- *.
  destruct (N.eqb_spec c QUOTE) as [->|Hq].
  { injection H; intros; match goal with E : _ ++ QUOTE :: u = u |- _ => apply (f_equal (@length N)) in E; rewrite length_app in E; simpl in E; lia end. }
  destruct (c =? BACKSLASH)%N.
  - destruct p1 as [|e p2].
    + simpl in H. 
      destruct (parse_string_body u) as [[str' rest']|] eqn:E; [|discriminate].
      injection H as _ <-. apply pbs_shorter in E. lia.
    + cbn [app] in *. destruct (e =? 117)%N.
      * destruct p2 as [|h1 [|h2 [|h3 [|h4 p3]]]]; cbn [app] in *.
        -- destruct u as [|a [|b [|d u]]]; discriminate.
        -- destruct u as [|a [|b u]]; try discriminate.
           unfold hex4 in H. destruct (hex_value h1); discriminate.
        -- destruct u as [|a u]; try discriminate.
           unfold hex4 in H. destruct (hex_value h1), (hex_value h2); discriminate.
        -- unfold hex4 in H. destruct (hex_value h1), (hex_value h2), (hex_value h3); discriminate.
        -- destruct (hex4 h1 h2 h3 h4); [|discriminate].
           destruct (parse_string_body (p3 ++ QUOTE :: u)) as [[str' rest']|] eqn:E; [|discriminate].
           injection H as <- ->.
           rewrite (IH (length p3) ltac:(simpl in Hk; lia) p3 str' eq_refl E). reflexivity.
      * destruct (simple_escape e); [|discriminate].
        destruct (parse_string_body (p2 ++ QUOTE :: u)) as [[str' rest']|] eqn:E; [|discriminate].
        injection H as <- ->.
        rewrite (IH (length p2) ltac:(simpl in Hk; lia) p2 str' eq_refl E). reflexivity.
  - destruct (c <? 32)%N; [discriminate|].
    destruct (parse_string_body (p1 ++ QUOTE :: u)) as [[str' rest']|] eqn:E; [|discriminate].
    injection H as <- ->.
    rewrite (IH (length p1) ltac:(simpl in Hk; lia) p1 str' eq_refl E). reflexivity.
Qed.

Lemma pbs_trunc (x t str r : jstr) :
  parse_string_body (x ++ t) = Some (str, r ++ t) -> parse_string_body x = Some (str, r).
Proof.
  intros H. destruct (pbs_solid _ _ _ H) as [p Hp].
  assert (Hx : x = p ++ QUOTE :: r).
  { apply (app_inv_tail_jstr _ _ t). rewrite Hp, <- app_assoc. reflexivity. }
  subst x. rewrite <- app_assoc in H. exact (pbs_local p (r ++ t) r str H).
Qed.

(** ** Suffixes *)

Definition suffix (a b : jstr) : Prop := exists q, b = q ++ a.

Lemma suffix_refl (a : jstr) : suffix a a.
Proof. exists []. reflexivity. Qed.

Lemma suffix_trans (a b c : jstr) : suffix a b -> suffix b c -> suffix a c.
Proof. intros [q1 ->] [q2 ->]. exists (q2 ++ q1). apply app_assoc. Qed.

Lemma suffix_cons (x : N) (a : jstr) : suffix a (x :: a).
Proof. exists [x]. reflexivity. Qed.

Lemma suffix_cons_l (x : N) (a b : jstr) : suffix (x :: a) b -> suffix a b.
Proof. intros H. exact (suffix_trans _ _ _ (suffix_cons x a) H). Qed.

Lemma suffix_skip (s : jstr) : suffix (skip_json_ws s) s.
Proof. destruct (skip_json_ws_split s) as [w [E _]]. exists w. exact E. Qed.

Lemma suffix_length (a b : jstr) : suffix a b -> (length a <= length b)%nat.
Proof. intros [q ->]. rewrite length_app. lia. Qed.

Lemma suffix_pbs (s str rest : jstr) :
  parse_string_body s = Some (str, rest) -> suffix (QUOTE :: rest) s.
Proof. intros H. destruct (pbs_solid _ _ _ H) as [p Hp]. exists p. exact Hp. Qed.

Lemma suffix_form (r t R : jstr) : suffix (r ++ t) R -> exists Y, R = Y ++ t /\ suffix r Y.
Proof. intros [q ->]. exists (q ++ r). split; [apply app_assoc|exists q; reflexivity]. Qed.

(** The input consumed by a parse ends with a character that is not white space. *)
Definition solid (s r : jstr) : Prop := exists c, is_js_ws c = false /\ suffix (c :: r) s.

Lemma solid_suffix (s r : jstr) : solid s r -> suffix r s.
Proof. intros (c & _ & H). exact (suffix_cons_l _ _ _ H). Qed.

Lemma solid_length (s r : jstr) : solid s r -> (length r < length s)%nat.
Proof. intros (c & _ & H). apply suffix_length in H. simpl in H. lia. Qed.

Lemma solid_trans (s' s r : jstr) : suffix s' s -> solid s' r -> solid s r.
Proof. intros H (c & Hc & H'). exists c. split; [exact Hc|exact (suffix_trans _ _ _ H' H)]. Qed.

Lemma solid_close (c : N) (r s : jstr) : is_js_ws c = false -> suffix (c :: r) s -> solid s r.
Proof. intros Hc H. exists c. split; assumption. Qed.

Lemma solid_not_self (x t r : jstr) : solid (x ++ t) (r ++ t) -> x <> [].
Proof.
  intros H ->. apply solid_length in H. rewrite length_app in H. simpl in H. lia.
Qed.

(** ** Number and literal lexemes end with a character that is not white space *)

Definition num_char (c : N) : bool :=
  is_digit c || (c =? 45)%N || (c =? 43)%N || (c =? 46)%N || (c =? 101)%N || (c =? 69)%N.

Lemma num_char_not_ws (c : N) : num_char c = true -> is_js_ws c = false.
Proof.
  unfold num_char, is_digit. rewrite !orb_true_iff, andb_true_iff, !N.leb_le, !N.eqb_eq.
  intros [[[[[[H1 H2]|H]|H]|H]|H]|H]; try (subst; reflexivity).
  assert (c = 48 \/ c = 49 \/ c = 50 \/ c = 51 \/ c = 52 \/ c = 53 \/ c = 54 \/ c = 55 \/
          c = 56 \/ c = 57)%N as Hc by lia.
  repeat destruct Hc as [Hc|Hc]; subst; reflexivity.
Qed.

Lemma digits_num (s d r : jstr) : digits s = (d, r) -> forallb num_char d = true.
Proof.
  intros H. apply digits_all in H. induction d as [|x d IH]; [reflexivity|].
  simpl in *. apply andb_prop in H as [Hx H]. rewrite IH by exact H. rewrite andb_true_r. unfold num_char. rewrite Hx. reflexivity.
Qed.

Lemma parse_number_num (s lex r : jstr) : parse_number s = Some (lex, r) -> forallb num_char lex = true.
Proof.
  unfold parse_number.
  destruct (match s with c :: r => if (c =? 45)%N then ([c], r) else ([], s) | [] => ([], []) end)
    as [minus s1] eqn:E.
  assert (Hm : forallb num_char minus = true).
  { destruct s as [|c s']; [injection E as <- _; reflexivity|].
    destruct (N.eqb_spec c 45); injection E as <- _; [subst; reflexivity|reflexivity]. }
  clear E.
  destruct (parse_int s1) as [[i s2]|] eqn:Ei; [|discriminate].
  destruct (parse_frac s2) as [[f s3]|] eqn:Ef; [|discriminate].
  destruct (parse_exp s3) as [[e s4]|] eqn:Ee; [|discriminate].
  intros H; injection H as <- _.
  rewrite !forallb_app, Hm. simpl.
  assert (Hi : forallb num_char i = true).
  { revert Ei. unfold parse_int. destruct s1 as [|c s1]; [discriminate|].
    destruct (N.eqb_spec c 48).
    - intros H; injection H as <- _. subst. reflexivity.
    - destruct (is_digit c) eqn:Hc; [|discriminate].
      destruct (digits s1) as [d rest] eqn:Ed. intros H; injection H as <- _.
      simpl. rewrite (digits_num _ _ _ Ed). unfold num_char. rewrite Hc. reflexivity. }
  assert (Hf : forallb num_char f = true).
  { revert Ef. unfold parse_frac. destruct s2 as [|c s2]; [intros H; injection H as <- _; reflexivity|].
    destruct (N.eqb_spec c 46).
    - destruct (digits s2) as [[|y d] rest] eqn:Ed; [discriminate|].
      intros H; injection H as <- _. subst. simpl. apply (digits_num _ _ _ Ed).
    - intros H; injection H as <- _. reflexivity. }
  assert (He : forallb num_char e = true).
  { revert Ee. unfold parse_exp. destruct s3 as [|c s3]; [intros H; injection H as <- _; reflexivity|].
    destruct ((c =? 101)%N || (c =? 69)%N) eqn:Hc.
    - assert (Hc' : num_char c = true).
      { unfold num_char. apply orb_true_iff in Hc as [Hc|Hc]; rewrite Hc; rewrite ?orb_true_r; reflexivity. }
      destruct s3 as [|d0 s3]; [discriminate|].
      destruct ((d0 =? 43)%N || (d0 =? 45)%N) eqn:Hd.
      + destruct (digits s3) as [[|y d] rest] eqn:Ed; [discriminate|].
        intros H; injection H as <- _. simpl. rewrite Hc'. simpl.
        assert (Hd' : num_char d0 = true).
        { unfold num_char. apply orb_true_iff in Hd as [Hd|Hd]; rewrite Hd; rewrite ?orb_true_r; reflexivity. }
        rewrite Hd'. exact (digits_num _ _ _ Ed).
      + destruct (digits (d0 :: s3)) as [[|y d] rest] eqn:Ed; [discriminate|].
        intros H; injection H as <- _. simpl. rewrite Hc'. exact (digits_num _ _ _ Ed).
    - intros H; injection H as <- _. reflexivity. }
  rewrite Hi, Hf, He. reflexivity.
Qed.

Lemma parse_number_solid (s lex r : jstr) : parse_number s = Some (lex, r) -> solid s r.
Proof.
  intros H. destruct (parse_number_cat _ _ _ H) as [Hs Hl].
  pose proof (parse_number_num _ _ _ H) as Hn.
  destruct (exists_last Hl) as (l & x & Hx). subst lex.
  exists x. split.
  - apply num_char_not_ws. rewrite forallb_app in Hn. apply andb_prop in Hn as [_ Hn].
    simpl in Hn. rewrite andb_true_r in Hn. exact Hn.
  - exists l. rewrite Hs, <- app_assoc. reflexivity.
Qed.

Lemma prefixb_app_split (L s : jstr) : prefixb L s = true -> s = L ++ skipn (length L) s.
Proof.
  revert s. induction L as [|y L IH]; intros s H; [reflexivity|].
  destruct s as [|x s]; [discriminate|]. simpl in H. apply andb_prop in H as [Hy H].
  apply N.eqb_eq in Hy. subst. simpl. f_equal. exact (IH s H).
Qed.

Lemma prefixb_app_long (L x t : jstr) :
  (length L <= length x)%nat -> prefixb L (x ++ t) = prefixb L x.
Proof.
  revert x. induction L as [|y L IH]; intros x Hlen; [reflexivity|].
  destruct x as [|a x]; [simpl in Hlen; lia|]. simpl. rewrite IH by (simpl in Hlen; lia). reflexivity.
Qed.

Lemma prefixb_trunc (L x t r : jstr) :
  prefixb L (x ++ t) = true -> skipn (length L) (x ++ t) = r ++ t ->
  prefixb L x = true /\ skipn (length L) x = r.
Proof.
  intros Hp Hs.
  assert (Hlen : (length L <= length x)%nat).
  { apply (f_equal (@length N)) in Hs. rewrite length_skipn, !length_app in Hs.
    pose proof (prefixb_length _ _ Hp) as HL. rewrite length_app in HL. lia. }
  rewrite skipn_app in Hs. replace (length L - length x)%nat with 0%nat in Hs by lia.
  simpl in Hs. apply app_inv_tail_jstr in Hs. split; [|exact Hs].
  rewrite <- (prefixb_app_long L x t Hlen). exact Hp.
Qed.

Lemma prefixb_true_head (L s : jstr) (y : N) (L' : jstr) :
  L = y :: L' -> prefixb L s = true -> exists s', s = y :: s'.
Proof.
  intros -> H. destruct s as [|x s]; [discriminate|]. simpl in H.
  apply andb_prop in H as [Hy _]. apply N.eqb_eq in Hy. subst. exists s. reflexivity.
Qed.

Lemma literal_solid (L s : jstr) (l : jstr) (x : N) :
  L = l ++ [x] -> is_js_ws x = false -> prefixb L s = true -> solid s (skipn (length L) s).
Proof.
  intros HL Hx Hp. exists x. split; [exact Hx|]. exists l.
  rewrite (prefixb_app_split _ _ Hp) at 1. rewrite HL, <- app_assoc. reflexivity.
Qed.

Lemma parse_value_eq (n : nat) (c : N) (r : jstr) :
  parse_value (S n) (c :: r) =
  if (c =? LBRACE)%N then
    match skip_json_ws r with
    | c' :: r' =>
      if (c' =? RBRACE)%N then Some (JObject [], r')
      else parse_members n (skip_json_ws r) []
    | [] => None
    end
  else if (c =? LBRACKET)%N then
    match skip_json_ws r with
    | c' :: r' =>
      if (c' =? RBRACKET)%N then Some (JArray [], r')
      else parse_elements n (skip_json_ws r) []
    | [] => None
    end
  else if (c =? QUOTE)%N then
    match parse_string_body r with
    | Some (str, rest) => Some (JString str, rest)
    | None => None
    end
  else if prefixb LIT_TRUE (c :: r) then Some (JBool true, skipn 4 (c :: r))
  else if prefixb LIT_FALSE (c :: r) then Some (JBool false, skipn 5 (c :: r))
  else if prefixb LIT_NULL (c :: r) then Some (JNull, skipn 4 (c :: r))
  else
    match parse_number (c :: r) with
    | Some (lex, rest) => Some (JNumber lex, rest)
    | None => None
    end.
Proof. reflexivity. Qed.

Lemma parse_members_eq (n : nat) (c : N) (r : jstr) (acc : list (jstr * json)) :
  parse_members (S n) (c :: r) acc =
  if (c =? QUOTE)%N then
    match parse_string_body r with
    | None => None
    | Some (k, r1) =>
      match skip_json_ws r1 with
      | [] => None
      | c1 :: r2 =>
        if (c1 =? COLON)%N then
          match parse_value n (skip_json_ws r2) with
          | None => None
          | Some (v, r3) =>
            match skip_json_ws r3 with
            | [] => None
            | c3 :: r4 =>
              if (c3 =? COMMA)%N then parse_members n (skip_json_ws r4) (acc ++ [(k, v)])
              else if (c3 =? RBRACE)%N then Some (JObject (acc ++ [(k, v)]), r4)
              else None
            end
          end
        else None
      end
    end
  else None.
Proof. reflexivity. Qed.

Lemma parse_elements_eq (n : nat) (s : jstr) (acc : list json) :
  parse_elements (S n) s acc =
  match parse_value n s with
  | None => None
  | Some (v, r3) =>
    match skip_json_ws r3 with
    | [] => None
    | c3 :: r4 =>
      if (c3 =? COMMA)%N then parse_elements n (skip_json_ws r4) (acc ++ [v])
      else if (c3 =? RBRACKET)%N then Some (JArray (acc ++ [v]), r4)
      else None
    end
  end.
Proof. reflexivity. Qed.

Theorem parse_solid : forall n,
  (forall s v r, parse_value n s = Some (v, r) -> solid s r) /\
  (forall s acc v r, parse_members n s acc = Some (v, r) -> solid s r) /\
  (forall s acc v r, parse_elements n s acc = Some (v, r) -> solid s r).
Proof.
  induction n as [|n (IHv & IHm & IHe)]; [split; [|split]; discriminate|].
  split; [|split].
  - intros s v r H. destruct s as [|c r']; [discriminate|]. rewrite parse_value_eq in H.
    destruct (c =? LBRACE)%N.
    { destruct (skip_json_ws r') as [|c' r''] eqn:Es; [discriminate|].
      destruct (N.eqb_spec c' RBRACE) as [->|].
      - injection H as <- <-. apply (solid_close RBRACE); [reflexivity|].
        apply (suffix_trans _ r'); [rewrite <- Es; apply suffix_skip|apply suffix_cons].
      - apply IHm in H. apply (solid_trans (c' :: r'')); [|exact H].
        apply (suffix_trans _ r'); [rewrite <- Es; apply suffix_skip|apply suffix_cons]. }
    destruct (c =? LBRACKET)%N.
    { destruct (skip_json_ws r') as [|c' r''] eqn:Es; [discriminate|].
      destruct (N.eqb_spec c' RBRACKET) as [->|].
      - injection H as <- <-. apply (solid_close RBRACKET); [reflexivity|].
        apply (suffix_trans _ r'); [rewrite <- Es; apply suffix_skip|apply suffix_cons].
      - apply IHe in H. apply (solid_trans (c' :: r'')); [|exact H].
        apply (suffix_trans _ r'); [rewrite <- Es; apply suffix_skip|apply suffix_cons]. }
    destruct (c =? QUOTE)%N.
    { destruct (parse_string_body r') as [[str rest]|] eqn:E; [|discriminate].
      injection H as <- <-. apply (solid_close QUOTE); [reflexivity|].
      apply (suffix_trans _ r'); [exact (suffix_pbs _ _ _ E)|apply suffix_cons]. }
    destruct (prefixb LIT_TRUE (c :: r')) eqn:Et.
    { injection H as <- <-. exact (literal_solid LIT_TRUE _ (js "tru") 101 eq_refl eq_refl Et). }
    destruct (prefixb LIT_FALSE (c :: r')) eqn:Ef.
    { injection H as <- <-. exact (literal_solid LIT_FALSE _ (js "fals") 101 eq_refl eq_refl Ef). }
    destruct (prefixb LIT_NULL (c :: r')) eqn:En.
    { injection H as <- <-. exact (literal_solid LIT_NULL _ (js "nul") 108 eq_refl eq_refl En). }
    destruct (parse_number (c :: r')) as [[lex rest]|] eqn:E; [|discriminate].
    injection H as <- <-. exact (parse_number_solid _ _ _ E).
  - intros s acc v r H. destruct s as [|c r']; [discriminate|]. rewrite parse_members_eq in H.
    destruct (c =? QUOTE)%N; [|discriminate].
    destruct (parse_string_body r') as [[k r1]|] eqn:E1; [|discriminate].
    destruct (skip_json_ws r1) as [|c1 r2] eqn:E2; [discriminate|].
    destruct (c1 =? COLON)%N; [|discriminate].
    destruct (parse_value n (skip_json_ws r2)) as [[v' r3]|] eqn:E3; [|discriminate].
    destruct (skip_json_ws r3) as [|c3 r4] eqn:E4; [discriminate|].
    assert (S4 : suffix (c3 :: r4) (c :: r')).
    { apply (suffix_trans _ r3); [rewrite <- E4; apply suffix_skip|].
      apply (suffix_trans _ (skip_json_ws r2)); [exact (solid_suffix _ _ (IHv _ _ _ E3))|].
      apply (suffix_trans _ r2); [apply suffix_skip|].
      apply (suffix_trans _ r1); [apply (suffix_cons_l c1); rewrite <- E2; apply suffix_skip|].
      apply (suffix_trans _ r'); [|apply suffix_cons].
      exact (suffix_cons_l _ _ _ (suffix_pbs _ _ _ E1)). }
    destruct (c3 =? COMMA)%N.
    + apply IHm in H. apply (solid_trans (skip_json_ws r4)); [|exact H].
      apply (suffix_trans _ r4); [apply suffix_skip|exact (suffix_cons_l _ _ _ S4)].
    + destruct (N.eqb_spec c3 RBRACE) as [->|]; [|discriminate].
      injection H as <- <-. exact (solid_close RBRACE _ _ eq_refl S4).
  - intros s acc v r H. rewrite parse_elements_eq in H.
    destruct (parse_value n s) as [[v' r3]|] eqn:E3; [|discriminate].
    destruct (skip_json_ws r3) as [|c3 r4] eqn:E4; [discriminate|].
    assert (S4 : suffix (c3 :: r4) s).
    { apply (suffix_trans _ r3); [rewrite <- E4; apply suffix_skip|].
      exact (solid_suffix _ _ (IHv _ _ _ E3)). }
    destruct (c3 =? COMMA)%N.
    + apply IHe in H. apply (solid_trans (skip_json_ws r4)); [|exact H].
      apply (suffix_trans _ r4); [apply suffix_skip|exact (suffix_cons_l _ _ _ S4)].
    + destruct (N.eqb_spec c3 RBRACKET) as [->|]; [|discriminate].
      injection H as <- <-. exact (solid_close RBRACKET _ _ eq_refl S4).
Qed.

Lemma rest_form (s0 r t : jstr) : solid s0 (r ++ t) -> exists Y, s0 = Y ++ t /\ Y <> [].
Proof.
  intros (c & _ & q & ->). exists (q ++ c :: r). split; [rewrite <- app_assoc; reflexivity|].
  destruct q; discriminate.
Qed.

Lemma suffix_rest_form (s0 r t : jstr) : suffix (r ++ t) s0 -> exists Y, s0 = Y ++ t.
Proof. intros H. destruct (suffix_form _ _ _ H) as [Y [HY _]]. exists Y. exact HY. Qed.

Lemma prefixb_app_true (L x t : jstr) : prefixb L x = true -> prefixb L (x ++ t) = true.
Proof.
  intros H. pose proof (prefixb_length _ _ H).
  rewrite prefixb_app_long by assumption. exact H.
Qed.

Lemma prefixb_false_trunc (L x t : jstr) : prefixb L (x ++ t) = false -> prefixb L x = false.
Proof.
  intros H. destruct (prefixb L x) eqn:E; [|reflexivity].
  rewrite (prefixb_app_true _ _ t E) in H. discriminate.
Qed.

Theorem parse_trunc : forall n,
  (forall x t v r, parse_value n (x ++ t) = Some (v, r ++ t) -> parse_value n x = Some (v, r)) /\
  (forall x t acc v r, parse_members n (x ++ t) acc = Some (v, r ++ t) ->
                       parse_members n x acc = Some (v, r)) /\
  (forall x t acc v r, parse_elements n (x ++ t) acc = Some (v, r ++ t) ->
                       parse_elements n x acc = Some (v, r)).
Proof.
  induction n as [|n (IHv & IHm & IHe)]; [split; [|split]; discriminate|].
  destruct (parse_solid n) as (Sv & Sm & Se).
  split; [|split].
  - intros x t v r H.
    pose proof (proj1 (parse_solid (S n)) _ _ _ H) as Hs.
    destruct x as [|c x]; [exfalso; exact (solid_not_self [] t r Hs eq_refl)|].
    change ((c :: x) ++ t) with (c :: (x ++ t)) in H.
    rewrite parse_value_eq in H |- *.
    destruct (c =? LBRACE)%N.
    { destruct (skip_json_ws (x ++ t)) as [|c' r''] eqn:Es; [discriminate|].
      destruct (N.eqb_spec c' RBRACE) as [->|Hne].
      - injection H as <- ->.
        rewrite (skip_json_ws_trunc x t (RBRACE :: r) Es). reflexivity.
      - destruct (rest_form _ _ _ (Sm _ _ _ _ H)) as ([|c0 Y] & HY & Hn); [congruence|].
        injection HY as <- HY. subst r''.
        rewrite (skip_json_ws_trunc x t (c' :: Y) Es).
        apply N.eqb_neq in Hne. rewrite Hne.
        exact (IHm (c' :: Y) t [] v r H). }
    destruct (c =? LBRACKET)%N.
    { destruct (skip_json_ws (x ++ t)) as [|c' r''] eqn:Es; [discriminate|].
      destruct (N.eqb_spec c' RBRACKET) as [->|Hne].
      - injection H as <- ->.
        rewrite (skip_json_ws_trunc x t (RBRACKET :: r) Es). reflexivity.
      - destruct (rest_form _ _ _ (Se _ _ _ _ H)) as ([|c0 Y] & HY & Hn); [congruence|].
        injection HY as <- HY. subst r''.
        rewrite (skip_json_ws_trunc x t (c' :: Y) Es).
        apply N.eqb_neq in Hne. rewrite Hne.
        exact (IHe (c' :: Y) t [] v r H). }
    destruct (c =? QUOTE)%N.
    { destruct (parse_string_body (x ++ t)) as [[str rest]|] eqn:E; [|discriminate].
      injection H as <- ->. rewrite (pbs_trunc _ _ _ _ E). reflexivity. }
    change (c :: x ++ t) with ((c :: x) ++ t) in H.
    destruct (prefixb LIT_TRUE ((c :: x) ++ t)) eqn:Et.
    { injection H as <- Hr. destruct (prefixb_trunc LIT_TRUE _ _ _ Et Hr) as [Hp Hr']. rewrite Hp. cbv beta iota.
      exact (f_equal (fun z => Some (JBool true, z)) Hr'). }
    rewrite (prefixb_false_trunc _ _ _ Et).
    destruct (prefixb LIT_FALSE ((c :: x) ++ t)) eqn:Ef.
    { injection H as <- Hr. destruct (prefixb_trunc LIT_FALSE _ _ _ Ef Hr) as [Hp Hr']. rewrite Hp. cbv beta iota.
      exact (f_equal (fun z => Some (JBool false, z)) Hr'). }
    rewrite (prefixb_false_trunc _ _ _ Ef).
    destruct (prefixb LIT_NULL ((c :: x) ++ t)) eqn:En.
    { injection H as <- Hr. destruct (prefixb_trunc LIT_NULL _ _ _ En Hr) as [Hp Hr']. rewrite Hp. cbv beta iota.
      exact (f_equal (fun z => Some (JNull, z)) Hr'). }
    rewrite (prefixb_false_trunc _ _ _ En).
    destruct (parse_number ((c :: x) ++ t)) as [[lex rest]|] eqn:Enum; [|discriminate].
    injection H as <- ->. rewrite (parse_number_trunc _ _ _ _ Enum). reflexivity.
  - intros x t acc v r H.
    pose proof (proj1 (proj2 (parse_solid (S n))) _ _ _ _ H) as Hs.
    destruct x as [|c x]; [exfalso; exact (solid_not_self [] t r Hs eq_refl)|].
    change ((c :: x) ++ t) with (c :: (x ++ t)) in H.
    rewrite parse_members_eq in H |- *.
    destruct (c =? QUOTE)%N; [|discriminate].
    destruct (parse_string_body (x ++ t)) as [[k r1]|] eqn:E1; [|discriminate].
    destruct (skip_json_ws r1) as [|c1 r2] eqn:E2; [discriminate|].
    destruct (c1 =? COLON)%N eqn:Hcolon; [|discriminate].
    destruct (parse_value n (skip_json_ws r2)) as [[v' r3]|] eqn:E3; [|discriminate].
    destruct (skip_json_ws r3) as [|c3 r4] eqn:E4; [discriminate|].
    assert (F4 : exists Y4, r4 = Y4 ++ t /\
                 ((c3 =? COMMA)%N = true -> parse_members n (skip_json_ws Y4) (acc ++ [(k, v')]) = Some (v, r)) /\
                 ((c3 =? COMMA)%N = false -> (c3 =? RBRACE)%N = true /\ v = JObject (acc ++ [(k, v')]) /\ Y4 = r)).
    { destruct (c3 =? COMMA)%N.
      - destruct (suffix_rest_form r4 r t) as [Y4 ->].
        { apply (suffix_trans _ (skip_json_ws r4)); [exact (solid_suffix _ _ (Sm _ _ _ _ H))|apply suffix_skip]. }
        destruct (rest_form _ _ _ (Sm _ _ _ _ H)) as (Z4 & HZ4 & _).
        exists Y4. split; [reflexivity|]. split; [|discriminate].
        intros _. rewrite HZ4 in H. rewrite (skip_json_ws_trunc Y4 t Z4).
        + exact (IHm Z4 t _ v r H).
        + exact HZ4.
      - destruct (c3 =? RBRACE)%N; [|discriminate].
        injection H as <- ->. exists r. split; [reflexivity|]. split; [discriminate|].
        intros _. split; [reflexivity|split; reflexivity]. }
    destruct F4 as (Y4 & -> & Fc & Fb).
    destruct (suffix_rest_form r3 (Y4) t) as [Y3 ->].
    { apply (suffix_trans _ (c3 :: Y4 ++ t)); [apply suffix_cons|]. rewrite <- E4. apply suffix_skip. }
    destruct (suffix_rest_form (skip_json_ws r2) Y3 t) as [Z2 HZ2].
    { exact (solid_suffix _ _ (Sv _ _ _ E3)). }
    destruct (suffix_rest_form r2 Z2 t) as [R2 ->].
    { rewrite <- HZ2. apply suffix_skip. }
    destruct (suffix_rest_form r1 (c1 :: R2) t) as [R1 ->].
    { change ((c1 :: R2) ++ t) with (c1 :: R2 ++ t). rewrite <- E2. apply suffix_skip. }
    rewrite (pbs_trunc _ _ _ _ E1). cbv beta iota.
    rewrite (skip_json_ws_trunc R1 t (c1 :: R2) E2), Hcolon. cbv beta iota.
    rewrite (skip_json_ws_trunc R2 t Z2 HZ2).
    rewrite HZ2 in E3. rewrite (IHv _ _ _ _ E3). cbv beta iota.
    rewrite (skip_json_ws_trunc Y3 t (c3 :: Y4) E4). cbv beta iota.
    destruct (c3 =? COMMA)%N.
    + exact (Fc eq_refl).
    + destruct (Fb eq_refl) as (-> & -> & ->). reflexivity.
  - intros x t acc v r H.
    pose proof (proj2 (proj2 (parse_solid (S n))) _ _ _ _ H) as Hs.
    rewrite parse_elements_eq in H |- *.
    destruct (parse_value n (x ++ t)) as [[v' r3]|] eqn:E3; [|discriminate].
    destruct (skip_json_ws r3) as [|c3 r4] eqn:E4; [discriminate|].
    assert (F4 : exists Y4, r4 = Y4 ++ t /\
                 ((c3 =? COMMA)%N = true -> parse_elements n (skip_json_ws Y4) (acc ++ [v']) = Some (v, r)) /\
                 ((c3 =? COMMA)%N = false -> (c3 =? RBRACKET)%N = true /\ v = JArray (acc ++ [v']) /\ Y4 = r)).
    { destruct (c3 =? COMMA)%N.
      - destruct (suffix_rest_form r4 r t) as [Y4 ->].
        { apply (suffix_trans _ (skip_json_ws r4)); [exact (solid_suffix _ _ (Se _ _ _ _ H))|apply suffix_skip]. }
        destruct (rest_form _ _ _ (Se _ _ _ _ H)) as (Z4 & HZ4 & _).
        exists Y4. split; [reflexivity|]. split; [|discriminate].
        intros _. rewrite HZ4 in H. rewrite (skip_json_ws_trunc Y4 t Z4).
        + exact (IHe Z4 t _ v r H).
        + exact HZ4.
      - destruct (c3 =? RBRACKET)%N; [|discriminate].
        injection H as <- ->. exists r. split; [reflexivity|]. split; [discriminate|].
        intros _. split; [reflexivity|split; reflexivity]. }
    destruct F4 as (Y4 & -> & Fc & Fb).
    destruct (suffix_rest_form r3 (Y4) t) as [Y3 ->].
    { apply (suffix_trans _ (c3 :: Y4 ++ t)); [apply suffix_cons|]. rewrite <- E4. apply suffix_skip. }
    rewrite (IHv _ _ _ _ E3). cbv beta iota.
    rewrite (skip_json_ws_trunc Y3 t (c3 :: Y4) E4). cbv beta iota.
    destruct (c3 =? COMMA)%N.
    + exact (Fc eq_refl).
    + destruct (Fb eq_refl) as (-> & -> & ->). reflexivity.
Qed.

Theorem parse_fuel : forall n,
  (forall s v r, parse_value n s = Some (v, r) ->
     forall m, (length s - length r <= m)%nat -> parse_value m s = Some (v, r)) /\
  (forall s acc v r, parse_members n s acc = Some (v, r) ->
     forall m, (length s - length r <= m)%nat -> parse_members m s acc = Some (v, r)) /\
  (forall s acc v r, parse_elements n s acc = Some (v, r) ->
     forall m, (length s - length r <= m)%nat -> parse_elements m s acc = Some (v, r)).
Proof.
  induction n as [|n (IHv & IHm & IHe)]; [split; [|split]; discriminate|].
  destruct (parse_solid n) as (Sv & Sm & Se).
  split; [|split].
  - intros s v r H m Hm.
    pose proof (solid_length _ _ (proj1 (parse_solid (S n)) _ _ _ H)) as Hl.
    destruct m as [|m]; [lia|].
    destruct s as [|c r']; [discriminate|].
    rewrite parse_value_eq in H |- *.
    destruct (c =? LBRACE)%N.
    { destruct (skip_json_ws r') as [|c' r''] eqn:Es; [discriminate|].
      destruct (c' =? RBRACE)%N; [exact H|].
      pose proof (skip_json_ws_length r') as L. rewrite Es in L.
      apply (IHm _ _ _ _ H). cbn [length] in *. lia. }
    destruct (c =? LBRACKET)%N.
    { destruct (skip_json_ws r') as [|c' r''] eqn:Es; [discriminate|].
      destruct (c' =? RBRACKET)%N; [exact H|].
      pose proof (skip_json_ws_length r') as L. rewrite Es in L.
      apply (IHe _ _ _ _ H). cbn [length] in *. lia. }
    exact H.
  - intros s acc v r H m Hm.
    pose proof (solid_length _ _ (proj1 (proj2 (parse_solid (S n))) _ _ _ _ H)) as Hl.
    destruct m as [|m]; [lia|].
    destruct s as [|c r']; [discriminate|].
    rewrite parse_members_eq in H |- *.
    destruct (c =? QUOTE)%N; [|discriminate].
    destruct (parse_string_body r') as [[k r1]|] eqn:E1; [|discriminate].
    destruct (skip_json_ws r1) as [|c1 r2] eqn:E2; [discriminate|].
    destruct (c1 =? COLON)%N; [|discriminate].
    destruct (parse_value n (skip_json_ws r2)) as [[v' r3]|] eqn:E3; [|discriminate].
    destruct (skip_json_ws r3) as [|c3 r4] eqn:E4; [discriminate|].
    pose proof (pbs_shorter _ _ _ E1) as L1.
    pose proof (skip_json_ws_length r1) as L2. rewrite E2 in L2.
    pose proof (skip_json_ws_length r2) as L2'.
    pose proof (solid_length _ _ (Sv _ _ _ E3)) as L3.
    pose proof (skip_json_ws_length r3) as L4. rewrite E4 in L4.
    pose proof (skip_json_ws_length r4) as L4'.
    cbn [length] in *.
    assert (Hr : (length r <= length r4)%nat).
    { destruct (c3 =? COMMA)%N.
      - pose proof (solid_length _ _ (Sm _ _ _ _ H)). lia.
      - destruct (c3 =? RBRACE)%N; [injection H as _ <-; lia|discriminate]. }
    rewrite (IHv _ _ _ E3 m) by lia. rewrite E4.
    destruct (c3 =? COMMA)%N; [|exact H].
    apply (IHm _ _ _ _ H). lia.
  - intros s acc v r H m Hm.
    pose proof (solid_length _ _ (proj2 (proj2 (parse_solid (S n))) _ _ _ _ H)) as Hl.
    destruct m as [|m]; [lia|].
    rewrite parse_elements_eq in H |- *.
    destruct (parse_value n s) as [[v' r3]|] eqn:E3; [|discriminate].
    destruct (skip_json_ws r3) as [|c3 r4] eqn:E4; [discriminate|].
    pose proof (solid_length _ _ (Sv _ _ _ E3)) as L3.
    pose proof (skip_json_ws_length r3) as L4. rewrite E4 in L4.
    pose proof (skip_json_ws_length r4) as L4'.
    cbn [length] in *.
    assert (Hr : (length r <= length r4)%nat).
    { destruct (c3 =? COMMA)%N.
      - pose proof (solid_length _ _ (Se _ _ _ _ H)). lia.
      - destruct (c3 =? RBRACKET)%N; [injection H as _ <-; lia|discriminate]. }
    rewrite (IHv _ _ _ E3 m) by lia. rewrite E4.
    destruct (c3 =? COMMA)%N; [|exact H].
    apply (IHe _ _ _ _ H). lia.
Qed.

(** A successful parse starts at a character that is not white space. *)
Lemma parse_value_head (n : nat) (c : N) (r : jstr) (v : json) (rr : jstr) :
  parse_value n (c :: r) = Some (v, rr) -> is_js_ws c = false.
Proof.
  destruct n as [|n]; [discriminate|]. rewrite parse_value_eq.
  destruct (c =? LBRACE)%N eqn:E1; [apply N.eqb_eq in E1; subst; reflexivity|].
  destruct (c =? LBRACKET)%N eqn:E2; [apply N.eqb_eq in E2; subst; reflexivity|].
  destruct (c =? QUOTE)%N eqn:E3; [apply N.eqb_eq in E3; subst; reflexivity|].
  destruct (prefixb LIT_TRUE (c :: r)) eqn:E4.
  { intros _. destruct (prefixb_true_head LIT_TRUE (c :: r) 116 (js "rue") eq_refl E4) as [s' Hs].
    injection Hs as -> _. reflexivity. }
  destruct (prefixb LIT_FALSE (c :: r)) eqn:E5.
  { intros _. destruct (prefixb_true_head LIT_FALSE (c :: r) 102 (js "alse") eq_refl E5) as [s' Hs].
    injection Hs as -> _. reflexivity. }
  destruct (prefixb LIT_NULL (c :: r)) eqn:E6.
  { intros _. destruct (prefixb_true_head LIT_NULL (c :: r) 110 (js "ull") eq_refl E6) as [s' Hs].
    injection Hs as -> _. reflexivity. }
  destruct (parse_number (c :: r)) as [[lex rest]|] eqn:E7; [|discriminate].
  intros _. destruct (parse_number_cat _ _ _ E7) as [Hc Hne].
  pose proof (parse_number_num _ _ _ E7) as Hn.
  destruct lex as [|x lex]; [contradiction|]. injection Hc as -> _.
  simpl in Hn. apply andb_prop in Hn as [Hx _]. exact (num_char_not_ws _ Hx).
Qed.

Lemma json_ws_false (c : N) : is_js_ws c = false -> is_json_ws c = false.
Proof.
  intros H. destruct (is_json_ws c) eqn:E; [|reflexivity].
  rewrite (json_ws_js_ws _ E) in H. discriminate.
Qed.

Lemma forallb_json_js (w : jstr) : forallb is_json_ws w = true -> forallb is_js_ws w = true.
Proof.
  rewrite !forallb_forall. intros H x Hx. exact (json_ws_js_ws _ (H x Hx)).
Qed.

(** What [JSON.parse] accepts, [trim] keeps parseable to the same value. *)
Lemma json_parse_trim (s : jstr) (v : json) : JSON_parse s = Some v -> JSON_parse (trim s) = Some v.
Proof.
  unfold JSON_parse at 1.
  destruct (parse_value (S (length s)) (skip_json_ws s)) as [[v' rest]|] eqn:E; [|discriminate].
  destruct (forallb is_json_ws rest) eqn:Hr; [|discriminate]. intros H; injection H as ->.
  destruct (proj1 (parse_solid _) _ _ _ E) as (c & Hc & q & Hq).
  destruct (skip_json_ws_split s) as (w & Hw & Fw).
  assert (HP : skip_json_ws s = (q ++ [c]) ++ rest) by (rewrite <- app_assoc; exact Hq).
  assert (Hhead : exists x P', q ++ [c] = x :: P' /\ is_js_ws x = false).
  { destruct q as [|x q']; [exists c, []; split; [reflexivity|exact Hc]|].
    exists x, (q' ++ [c]). split; [reflexivity|]. rewrite Hq in E.
    exact (parse_value_head _ _ _ _ _ E). }
  destruct Hhead as (x & P' & HPx & Hx).
  assert (Htrim : trim s = q ++ [c]).
  { unfold trim, trim_start, trim_end. rewrite Hw, HP.
    rewrite (drop_js_ws_all_ws _ _ (forallb_json_js _ Fw)).
    rewrite HPx. simpl (drop_js_ws ((x :: P') ++ rest)). rewrite Hx.
    change (x :: P' ++ rest) with ((x :: P') ++ rest). rewrite <- HPx.
    rewrite rev_app_distr, rev_unit.
    rewrite (drop_js_ws_all_ws (rev rest)) by (rewrite forallb_rev_js; exact (forallb_json_js _ Hr)).
    simpl. rewrite Hc. simpl. rewrite rev_involutive. reflexivity. }
  rewrite Htrim. unfold JSON_parse.
  assert (Hs : skip_json_ws (q ++ [c]) = q ++ [c]).
  { rewrite HPx. simpl. rewrite (json_ws_false _ Hx). reflexivity. }
  rewrite Hs. rewrite HP in E.
  pose proof (proj1 (parse_trunc _) (q ++ [c]) rest v [] E) as E'.
  rewrite (proj1 (parse_fuel _) _ _ _ E' (S (length (q ++ [c])))) by (simpl; lia).
  reflexivity.
Qed.

Lemma prefixb_app_l (a b s : jstr) : prefixb (a ++ b) s = true -> prefixb a s = true.
Proof.
  revert s. induction a as [|y a IH]; intros s H; [reflexivity|].
  destruct s as [|x s]; [discriminate|]. simpl in *.
  apply andb_prop in H as [Hy H]. rewrite Hy. exact (IH s H).
Qed.

Lemma index_of_from_app_none (a b s : jstr) (i : nat) :
  index_of_from a s i = None -> index_of_from (a ++ b) s i = None.
Proof.
  revert i. induction s as [|c r IH]; intros i H; cbn [index_of_from] in H |- *.
  - destruct (prefixb a []) eqn:E; [discriminate|].
    destruct (prefixb (a ++ b) []) eqn:E'; [|reflexivity].
    rewrite (prefixb_app_l _ _ _ E') in E. discriminate.
  - destruct (prefixb a (c :: r)) eqn:E; [discriminate|].
    destruct (prefixb (a ++ b) (c :: r)) eqn:E'; [rewrite (prefixb_app_l _ _ _ E') in E; discriminate|].
    exact (IH _ H).
Qed.

(** A global replacement whose literal never occurs changes nothing. *)
Lemma replace_ws_go_no_match (lit : jstr) (fuel : nat) (s : jstr) (i : nat) :
  index_of_from lit s i = None -> replace_ws_go lit fuel s = s.
Proof.
  revert s i. induction fuel as [|f IH]; intros s i H; [reflexivity|].
  destruct s as [|c r]; [reflexivity|].
  cbn [index_of_from] in H. rewrite replace_ws_go_step.
  destruct (prefixb lit (c :: r)); [discriminate|].
  f_equal. exact (IH r (S i) H).
Qed.

(** [C1] (amended) For every raw text [s] that [JSON.parse] accepts with
    value [v] and in which the fence marker (three backticks) occurs
    nowhere, [parseClaudeResponse s] returns exactly [v]. *)
Theorem json_without_fence_parsed (s : jstr) (v : json) :
  JSON_parse s = Some v -> indexOf s FENCE = (-1)%Z -> parseClaudeResponse s = Parsed v.
Proof.
  intros Hp Hi.
  assert (H0 : index_of_from FENCE s 0 = None).
  { unfold indexOf in Hi. destruct (index_of_from FENCE s 0); [lia|reflexivity]. }
  unfold parseClaudeResponse, strip_fences, replace_global_ws.
  rewrite (replace_ws_go_no_match FENCE_JSON _ s 0)
    by (unfold FENCE_JSON; apply index_of_from_app_none; exact H0).
  rewrite (replace_ws_go_no_match FENCE _ s 0 H0).
  rewrite (json_parse_trim _ _ Hp). reflexivity.
Qed.

Definition fence_in_string : jstr := jq "{'articleBody':'a ``` b','linkedinSnippet':'c'}".

(** [C1] A well-formed two-field object without surrounding fences whose
    article body holds three backticks followed by a space: [JSON.parse]
    keeps the body as is, the normalizer drops the backticks and the
    space. *)
Lemma fence_inside_string_altered :
  JSON_parse fence_in_string = Some (two_fields (js "a ``` b") (js "c")) /\
  parseClaudeResponse fence_in_string = Parsed (two_fields (js "a b") (js "c")).
Proof. split; vm_compute; reflexivity. Qed.

Definition plain_object : jstr := jq "{'articleBody':'x','linkedinSnippet':'y'}".

Lemma json_without_fence_parsed_witness :
  JSON_parse plain_object = Some (two_fields (js "x") (js "y")) /\
  indexOf plain_object FENCE = (-1)%Z /\
  parseClaudeResponse plain_object = Parsed (two_fields (js "x") (js "y")).
Proof.
  split; [vm_compute; reflexivity|]. split; [vm_compute; reflexivity|].
  apply json_without_fence_parsed; vm_compute; reflexivity.
Defined.


(* ------------------------------------------------------------------ *)
(** ** Further properties of the handlers and their helpers *)

(** The calls of [/api/generate] and [/webhook] are a prefix of: the
    listing, one LLM call, one CMS write. *)
Inductive generate_trace : list call -> Prop :=
| gt_none : generate_trace []
| gt_listed : generate_trace [CategoriesGet]
| gt_prompted p : generate_trace [CategoriesGet; ClaudePost p]
| gt_written p d : generate_trace [CategoriesGet; ClaudePost p; StrapiPost d].

Inductive generate_v1_trace : list call -> Prop :=
| gt1_none : generate_v1_trace []
| gt1_prompted p : generate_v1_trace [ClaudePost p]
| gt1_written p d : generate_v1_trace [ClaudePost p; StrapiPost d].

Definition status_ok (st : N) (ok : bool) : Prop :=
  (ok = true <-> st = 200%N) /\ (st = 200 \/ st = 400 \/ st = 500)%N.

Lemma status_ok_200 : status_ok 200 true.
Proof. split; [split; reflexivity|left; reflexivity]. Qed.
Lemma status_ok_400 : status_ok 400 false.
Proof. split; [split; discriminate|right; left; reflexivity]. Qed.
Lemma status_ok_500 : status_ok 500 false.
Proof. split; [split; discriminate|right; right; reflexivity]. Qed.

Ltac split_atomic :=
  match goal with
  | |- context [match ?x with _ => _ end] =>
      lazymatch x with
      | context [match _ with _ => _ end] => fail
      | _ => let E := fresh "E" in destruct x eqn:E
      end
  end.

Ltac run_handler :=
  unfold api_generate, api_generate_body, api_webhook, api_webhook_body,
    api_generate_v1, api_generate_v1_body, generateContent, generateContent_v1,
    createStrapiArticle, createStrapiArticle_v1, id_to_string,
    to_string_check, join_check, of_option, of_sum, bind, ret, throw, perform;
  cbv zeta;
  repeat (cbn beta iota; split_atomic); cbn beta iota.

(** The external calls of [/api/generate] and [/webhook] always form a
    prefix of: the category listing, one LLM call, one CMS write; those of
    the first version a prefix of: one LLM call, one CMS write.  No call
    is ever repeated or reordered. *)
Theorem handler_calls (tl : jstr -> jstr) (re : jstr -> jstr -> option Z) (e : env) (body : json) :
  generate_trace (fst (api_generate tl re e body)) /\
  generate_trace (fst (api_webhook tl re e body)) /\
  generate_v1_trace (fst (api_generate_v1 e body)).
Proof.
  split; [|split]; run_handler; simpl; constructor.
Qed.

(** Every answer of the three handlers has status 200, 400 or 500, and
    [success] is true exactly for status 200. *)
Theorem handler_status (tl : jstr -> jstr) (re : jstr -> jstr -> option Z) (e : env) (body : json) :
  status_ok (status (snd (api_generate tl re e body))) (success (snd (api_generate tl re e body))) /\
  status_ok (wh_status (snd (api_webhook tl re e body))) (wh_success (snd (api_webhook tl re e body))) /\
  status_ok (status (snd (api_generate_v1 e body))) (success (snd (api_generate_v1 e body))).
Proof.
  split; [|split]; run_handler;
    first [exact status_ok_200 | exact status_ok_400 | exact status_ok_500].
Qed.

Lemma splitContent_app (re : jstr -> jstr -> option Z) (content : jstr)
    (subs : list (option json)) (a b : jstr) :
  splitContentBySubheadings re content subs = inl (a, b) -> a ++ b = content.
Proof.
  unfold splitContentBySubheadings.
  destruct (valid_subheadings subs) as [valid|]; [|discriminate].
  destruct (re (split_pattern valid) content) as [k|]; [|discriminate].
  destruct (negb (k =? -1)%Z); intros H; injection H as <- <-; apply substring_cut.
Qed.

Lemma valid_subheadings_length (subs : list (option json)) (vs : list jstr) :
  valid_subheadings subs = Some vs -> (length vs <= length subs)%nat.
Proof.
  revert vs. induction subs as [|sh subs IH]; intros vs H; simpl in H.
  - injection H as <-. reflexivity.
  - destruct (valid_subheadings subs) as [vs'|]; [|discriminate].
    specialize (IH vs' eq_refl). simpl.
    destruct (truthy sh); [|injection H as <-; lia].
    destruct sh as [[| | | s | |]|]; try discriminate.
    destruct (jstr_eqb (trim s) []); injection H as <-; simpl; lia.
Qed.

Lemma request_subheadings_length (body : json) : length (request_subheadings body) = 6%nat.
Proof. unfold request_subheadings. rewrite length_map. reflexivity. Qed.

Ltac subheading_bounds :=
  match goal with
  | E : valid_subheadings (request_subheadings ?b) = Some ?l, F : (length ?l <? 4) = false |- _ =>
      apply Nat.ltb_ge in F; pose proof (valid_subheadings_length _ _ E) as Hlen;
      rewrite request_subheadings_length in Hlen; lia
  end.

(** A successful answer of [/api/generate] or [/webhook] comes after all
    three calls, the article posted links a non-empty list of category
    ids, the reported [categoriesConnected] is its length, and between 4
    and 6 subheadings were used. *)
Theorem successful_generation (tl : jstr -> jstr) (re : jstr -> jstr -> option Z) (e : env) (body : json) :
  (success (snd (api_generate tl re e body)) = true ->
   exists p d ids,
     fst (api_generate tl re e body) = [CategoriesGet; ClaudePost p; StrapiPost d] /\
     sd_categories d = Some ids /\ ids <> [] /\
     exists sid sn gd bw biw su,
       result (snd (api_generate tl re e body)) = Generated sid sn gd bw biw (length ids) su /\
       (4 <= su <= 6)%nat) /\
  (wh_success (snd (api_webhook tl re e body)) = true ->
   exists p d ids,
     fst (api_webhook tl re e body) = [CategoriesGet; ClaudePost p; StrapiPost d] /\
     sd_categories d = Some ids /\ ids <> [] /\
     exists aid sid sn gd bw biw ft su cats,
       wh_result (snd (api_webhook tl re e body))
       = WGenerated aid sid sn gd bw biw ft (length ids) su cats /\ (4 <= su <= 6)%nat).
Proof.
  split; run_handler;
    first [ intros H; discriminate H
          | intros _; do 3 eexists; split; [reflexivity|]; split; [reflexivity|];
            split; [discriminate|];
            repeat eexists; subheading_bounds ].
Qed.

Ltac in_trace_cases :=
  let H := fresh "Hin" in
  intros H; simpl in H;
  repeat match type of H with
         | _ \/ _ => destruct H as [H|H]
         | False => destruct H
         end;
  try discriminate H.

(** Whatever CMS write [/api/generate] or [/webhook] issues carries the
    two parts of the [articleBody] string the LLM reply parsed to, in
    order and with nothing lost, the resolved (non-empty) category ids of
    the request, and [publishedAt: null]. *)
Theorem written_article (tl : jstr -> jstr) (re : jstr -> jstr -> option Z) (e : env) (body : json)
    (d : strapi_data) :
  (In (StrapiPost d) (fst (api_generate tl re e body)) \/
   In (StrapiPost d) (fst (api_webhook tl re e body))) ->
  exists raw v content a b cats ids,
    env_llm e = LlmReplied raw /\ parseClaudeResponse raw = Parsed v /\
    get_prop v (js "articleBody") = Some (Some (JString content)) /\
    sd_body d = Some (JString a) /\ sd_bodyImageText d = Some (JString b) /\ a ++ b = content /\
    parseCategories (get_field body "category") = Some cats /\
    findCategoryIds tl (env_categories e) cats = Some ids /\ ids <> [] /\
    sd_categories d = Some ids /\ sd_publishedAt d = Some JNull.
Proof.
  intros [H|H]; revert H; run_handler; in_trace_cases;
    injection Hin as <-; subst;
    do 7 eexists;
    repeat match goal with |- _ /\ _ => split end;
    first [ eassumption | reflexivity | discriminate
          | eapply splitContent_app; eassumption ].
Qed.

(** When the LLM call fails, none of the three handlers writes to the
    CMS, and none answers with success. *)
Theorem llm_failure_no_write (tl : jstr -> jstr) (re : jstr -> jstr -> option Z) (e : env) (body : json) :
  env_llm e = LlmFailed ->
  (forall d, ~ In (StrapiPost d) (fst (api_generate tl re e body))) /\
  success (snd (api_generate tl re e body)) = false /\
  (forall d, ~ In (StrapiPost d) (fst (api_webhook tl re e body))) /\
  wh_success (snd (api_webhook tl re e body)) = false /\
  (forall d, ~ In (StrapiPost d) (fst (api_generate_v1 e body))) /\
  success (snd (api_generate_v1 e body)) = false.
Proof.
  intros Hl. repeat split; revert Hl; run_handler;
    first [ intros Hl; discriminate Hl
          | intros _; reflexivity
          | intros _ d; in_trace_cases ].
Qed.

(** A [funnelType] that is not a key of [CONTENT_PROMPTS] (own or
    inherited) makes the prompt construction throw: no handler calls the
    LLM, and none answers with success. *)
Theorem unknown_funnel_no_llm (tl : jstr -> jstr) (re : jstr -> jstr -> option Z) (e : env) (body : json) :
  (forall f, get_field body "funnelType" = Some f -> prompt_key_ok f = false) ->
  (forall p, ~ In (ClaudePost p) (fst (api_generate tl re e body))) /\
  success (snd (api_generate tl re e body)) = false /\
  (forall p, ~ In (ClaudePost p) (fst (api_webhook tl re e body))) /\
  wh_success (snd (api_webhook tl re e body)) = false /\
  (forall p, ~ In (ClaudePost p) (fst (api_generate_v1 e body))) /\
  success (snd (api_generate_v1 e body)) = false.
Proof.
  intros Hf.
  assert (Hk : forall f, get_field body "funnelType" = Some f -> prompt_key_ok f = true -> False)
    by (intros f E E'; rewrite (Hf f E) in E'; discriminate E').
  clear Hf.
  repeat match goal with |- _ /\ _ => split end; run_handler;
    try (intros p; in_trace_cases);
    first [ reflexivity
          | match goal with E' : prompt_key_ok ?f = true |- _ =>
              exfalso; apply (Hk f); [ first [ assumption | reflexivity ] | exact E' ] end ].
Qed.

(** When the CMS answers without an id ([undefined] or [null]),
    [strapiArticleId.toString()] throws and no handler reports success,
    although the article was written. *)
Theorem cms_without_id_fails (tl : jstr -> jstr) (re : jstr -> jstr -> option Z) (e : env) (body : json) :
  env_cms e = CmsCreated None \/ env_cms e = CmsCreated (Some JNull) ->
  success (snd (api_generate tl re e body)) = false /\
  wh_success (snd (api_webhook tl re e body)) = false /\
  success (snd (api_generate_v1 e body)) = false.
Proof.
  intros Hc. repeat match goal with |- _ /\ _ => split end; run_handler;
    first [ reflexivity | destruct Hc; congruence ].
Qed.

Lemma split_on_head (sep : N) (day rest : jstr) :
  ~ In sep day -> hd [] (split_on sep (day ++ sep :: rest)) = day.
Proof.
  induction day as [|c day IH]; intros Hn; simpl.
  - rewrite N.eqb_refl. reflexivity.
  - destruct (N.eqb_spec c sep) as [->|Hc].
    + exfalso. apply Hn. left. reflexivity.
    + destruct (split_on sep (day ++ sep :: rest)) as [|w ws] eqn:Es.
      * destruct day; simpl in Es; [rewrite N.eqb_refl in Es|destruct (_ =? _)%N, (split_on _ _)]; discriminate Es.
      * simpl in IH |- *. rewrite IH; [reflexivity|]. intros Hi. apply Hn. right. exact Hi.
Qed.

(** The [generatedDate] of a successful answer is the part of the ISO
    timestamp before its [T]. *)
Theorem generated_date_is_day (tl : jstr -> jstr) (re : jstr -> jstr -> option Z) (e : env) (body : json)
    (day time : jstr) :
  env_now e = day ++ 84%N :: time -> ~ In 84%N day ->
  (forall sid sn gd bw biw cc su,
     result (snd (api_generate tl re e body)) = Generated sid sn gd bw biw cc su -> gd = day) /\
  (forall aid sid sn gd bw biw ft cc su cats,
     wh_result (snd (api_webhook tl re e body)) = WGenerated aid sid sn gd bw biw ft cc su cats ->
     gd = day) /\
  (forall sid sn gd,
     result (snd (api_generate_v1 e body)) = GeneratedV1 sid sn gd -> gd = day).
Proof.
  intros Hn Hd.
  assert (Hp : date_part (env_now e) = day) by (rewrite Hn; apply split_on_head; exact Hd).
  repeat match goal with |- _ /\ _ => split end; run_handler; intros * Hr;
    first [ discriminate Hr | injection Hr; intros; congruence ].
Qed.

(** A [funnelType] that passes the prompt lookup converts to a string. *)
Lemma prompt_key_ok_convertible : forall f, prompt_key_ok f = true -> to_string_throws f = false.
Proof.
  fix IH 1. intros [|b|lex|s|xs|ms] H; simpl in *; try reflexivity; try discriminate H.
  destruct xs as [|x [|y r]]; try discriminate H. simpl. rewrite (IH x H). reflexivity.
Qed.

(** When no value the handlers convert to a string has an own
    [toString] key (the body's [message], which winston converts at
    line 550, included), [/webhook] makes the same calls as
    [/api/generate] and answers with the same status and [success]. *)
Theorem webhook_agrees_with_generate (tl : jstr -> jstr) (re : jstr -> jstr -> option Z)
    (e : env) (body : json) :
  (forall v, get_field body "message" = Some v -> to_string_throws v = false) ->
  (forall v, get_field body "headline" = Some v -> to_string_throws v = false) ->
  (forall v, get_field body "summary" = Some v -> to_string_throws v = false) ->
  (forall cats, parseCategories (get_field body "category") = Some cats ->
     existsb to_string_throws cats = false) ->
  (forall v, env_cms e = CmsCreated (Some v) -> to_string_throws v = false) ->
  (fst (api_webhook tl re e body), wh_status (snd (api_webhook tl re e body)),
   wh_success (snd (api_webhook tl re e body)))
  = (fst (api_generate tl re e body), status (snd (api_generate tl re e body)),
     success (snd (api_generate tl re e body))).
Proof.
  intros Hmsg Hh Hs Hc Hi. pose proof prompt_key_ok_convertible as Hpk. run_handler;
    first [ reflexivity
          | exfalso;
            match goal with
            | E' : ?t = true, H : forall x, _ -> ?t' = false |- _ =>
                erewrite H in E'; [ discriminate E' | first [ eassumption | reflexivity ] ]
            end ].
Qed.

(** A requested category on which [ToString] throws (an object with an
    own [toString] key, or an array holding one) makes the category lookup
    throw after the listing: with a non-empty directory the value has no
    [toLowerCase] (line 209), with the empty one the warning of line 215
    cannot convert it.  [/api/generate] answers 500 after the listing
    alone; [/webhook] answers 500 too and makes no other call. *)
Theorem unconvertible_category_fails (tl : jstr -> jstr) (re : jstr -> jstr -> option Z)
    (e : env) (body : json) (cats : list json) :
  truthy (get_field body "headline") && truthy (get_field body "summary")
    && truthy (get_field body "category") && truthy (get_field body "funnelType") = true ->
  parseCategories (get_field body "category") = Some cats ->
  existsb to_string_throws cats = true ->
  api_generate tl re e body = ([CategoriesGet], resp 500 false (ServerError TypeErr)) /\
  (forall c, In c (fst (api_webhook tl re e body)) -> c = CategoriesGet) /\
  snd (api_webhook tl re e body) = mkWebhookResponse 500 false (WServerError TypeErr).
Proof.
  intros Ht Hp Hx.
  assert (Ef : findCategoryIds tl (env_categories e) cats = None).
  { destruct (findCategoryIds tl (env_categories e) cats) as [ids|] eqn:E; [|reflexivity].
    unfold findCategoryIds in E. rewrite (resolve_ids_convertible _ _ _ _ E) in Hx.
    discriminate Hx. }
  unfold api_webhook, api_webhook_body, api_generate, api_generate_body,
    of_option, of_sum, bind, ret, throw, perform.
  cbv zeta. rewrite Ht, Hp, Ef. cbn beta iota.
  unfold to_string_check.
  destruct (truthy (get_field body "message"));
    [destruct (get_field body "message") as [m|]; [destruct (to_string_throws m)|]|];
    cbn;
    (split; [reflexivity|split;
      [ intros c Hc; repeat (destruct Hc as [Hc|Hc]; [subst; reflexivity|]); destruct Hc
      | reflexivity ]]).
Qed.

Lemma unconvertible_category_fails_witness :
  api_generate ascii_lower literal_regexp_search_i failing_directory_env
    unconvertible_category_request
  = ([CategoriesGet], resp 500 false (ServerError TypeErr)) /\
  (forall c, In c (fst (api_webhook ascii_lower literal_regexp_search_i failing_directory_env
                          unconvertible_category_request)) -> c = CategoriesGet) /\
  snd (api_webhook ascii_lower literal_regexp_search_i failing_directory_env
         unconvertible_category_request)
  = mkWebhookResponse 500 false (WServerError TypeErr).
Proof.
  apply (unconvertible_category_fails ascii_lower literal_regexp_search_i failing_directory_env
           unconvertible_category_request [JObject [(js "toString", JNumber (js "1"))]]);
    vm_compute; reflexivity.
Defined.

Lemma sample_name_nonempty (c : category) : sample_name c <> [].
Proof.
  unfold sample_name. destruct (jstr_eqb (cat_name c) []) eqn:E.
  - discriminate.
  - intros H. rewrite H in E. discriminate E.
Qed.

(** The health report lists [min 5 n] sample names for [n] available
    categories; each sample is non-empty, and is either [Unknown] or the
    name of a category of the directory. *)
Theorem health_samples (e : env) :
  length (hr_sample_categories (snd (api_health e)))
    = Nat.min 5 (hr_categories_available (snd (api_health e))) /\
  (forall s, In s (hr_sample_categories (snd (api_health e))) ->
     s <> [] /\
     (s = js "Unknown" \/ exists c, In c (getStrapiCategories (env_categories e)) /\ cat_name c = s)).
Proof.
  unfold api_health; cbv zeta; cbn [snd hr_sample_categories hr_categories_available]. split.
  - rewrite length_map, length_firstn. reflexivity.
  - intros s Hs. apply in_map_iff in Hs as [c [<- Hc]].
    split; [apply sample_name_nonempty|].
    unfold sample_name. destruct (jstr_eqb (cat_name c) []).
    + left. reflexivity.
    + right. exists c. split; [|reflexivity].
      rewrite <- (firstn_skipn 5 (getStrapiCategories (env_categories e))).
      apply in_or_app. left. exact Hc.
Qed.

Lemma drop_js_ws_head (u : jstr) (x : N) (r : jstr) :
  drop_js_ws u = x :: r -> is_js_ws x = false.
Proof.
  induction u as [|c u IH]; simpl; [discriminate|].
  destruct (is_js_ws c) eqn:Ec; [exact IH|]. intros H. injection H as <- _. exact Ec.
Qed.

Lemma drop_js_ws_idem (u : jstr) : drop_js_ws (drop_js_ws u) = drop_js_ws u.
Proof.
  destruct (drop_js_ws u) as [|x r] eqn:E; [reflexivity|].
  simpl. rewrite (drop_js_ws_head u x r E). reflexivity.
Qed.

Lemma drop_js_ws_in (u : jstr) (a : N) : In a (drop_js_ws u) -> In a u.
Proof.
  induction u as [|c u IH]; simpl; [tauto|].
  destruct (is_js_ws c); simpl; tauto.
Qed.

Lemma trim_in (u : jstr) (a : N) : In a (trim u) -> In a u.
Proof.
  unfold trim, trim_end, trim_start. intros H.
  apply in_rev in H. apply drop_js_ws_in in H. apply in_rev in H. exact (drop_js_ws_in _ _ H).
Qed.

Lemma trim_idem (s : jstr) : trim (trim s) = trim s.
Proof.
  unfold trim, trim_end, trim_start.
  destruct (drop_js_ws s) as [|x r] eqn:E; [reflexivity|].
  pose proof (drop_js_ws_head s x r E) as Hx.
  assert (Ht : rev (drop_js_ws (rev (x :: r))) = x :: rev (drop_js_ws (rev r))).
  { change (rev (x :: r)) with (rev r ++ [x]).
    rewrite (drop_js_ws_app_stop (rev r) x [] Hx), rev_app_distr. reflexivity. }
  rewrite Ht. cbn [drop_js_ws]. rewrite Hx. rewrite <- Ht.
  change (rev (x :: r)) with (rev r ++ [x]).
  rewrite (drop_js_ws_app_stop (rev r) x [] Hx), rev_involutive,
    (drop_js_ws_app_stop _ x [] Hx), drop_js_ws_idem. reflexivity.
Qed.

Lemma split_on_no_sep (sep : N) (s w : jstr) : In w (split_on sep s) -> ~ In sep w.
Proof.
  revert w. induction s as [|c s IH]; simpl; intros w Hw.
  - destruct Hw as [<-|[]]. simpl. tauto.
  - destruct (N.eqb_spec c sep) as [->|Hc].
    + destruct Hw as [<-|Hw]; [simpl; tauto|exact (IH w Hw)].
    + destruct (split_on sep s) as [|w0 ws] eqn:Es.
      * destruct Hw as [<-|[]]. simpl. intros [H|[]]. exact (Hc H).
      * destruct Hw as [<-|Hw].
        -- simpl. intros [H|H]; [exact (Hc H)|]. exact (IH w0 (or_introl eq_refl) H).
        -- exact (IH w (or_intror Hw)).
Qed.

(** A comma-separated category string gives only non-empty, trimmed
    strings without a comma. *)
Theorem parse_categories_string (s : jstr) (cats : list json) :
  parseCategories (Some (JString s)) = Some cats ->
  forall x, In x cats -> exists c, x = JString c /\ c <> [] /\ trim c = c /\ ~ In COMMA c.
Proof.
  unfold parseCategories. destruct (negb (truthy (Some (JString s)))).
  - intros H. injection H as <-. intros x [].
  - intros H. injection H as <-. intros x Hx.
    apply in_map_iff in Hx as [c [<- Hc]]. apply filter_In in Hc as [Hc Hne].
    apply in_map_iff in Hc as [w [<- Hw]].
    exists (trim w). split; [reflexivity|]. split.
    + intros He. rewrite He in Hne. discriminate Hne.
    + split; [apply trim_idem|]. intros Hi. apply trim_in in Hi.
      exact (split_on_no_sep COMMA s w Hw Hi).
Qed.

Lemma parse_categories_string_witness :
  parseCategories (Some (JString (js " Marketing , ,Tech"))) = Some [JString (js "Marketing"); JString (js "Tech")] /\
  forall x, In x [JString (js "Marketing"); JString (js "Tech")] ->
    exists c, x = JString c /\ c <> [] /\ trim c = c /\ ~ In COMMA c.
Proof.
  assert (H : parseCategories (Some (JString (js " Marketing , ,Tech")))
              = Some [JString (js "Marketing"); JString (js "Tech")]) by (vm_compute; reflexivity).
  split; [exact H|]. exact (parse_categories_string _ _ H).
Defined.

Fixpoint ws_state (in_run : bool) (s : jstr) : bool :=
  match s with
  | [] => in_run
  | c :: r => ws_state (is_js_ws c) r
  end.

Lemma ws_runs_app (in_run : bool) (a b : jstr) :
  ws_runs in_run (a ++ b) = (ws_runs in_run a + ws_runs (ws_state in_run a) b)%nat.
Proof.
  revert in_run. induction a as [|c a IH]; intros in_run; simpl; [reflexivity|].
  destruct (is_js_ws c); rewrite IH; [destruct in_run|]; simpl; lia.
Qed.

Lemma ws_runs_start (b : jstr) :
  (ws_runs true b <= ws_runs false b <= S (ws_runs true b))%nat.
Proof. destruct b as [|c b]; simpl; [lia|]. destruct (is_js_ws c); simpl; lia. Qed.

Lemma word_count_app (a b : jstr) :
  (S (word_count (a ++ b)) <= word_count a + word_count b <= S (S (word_count (a ++ b))))%nat.
Proof.
  unfold word_count. rewrite ws_runs_app.
  destruct (ws_state false a); [pose proof (ws_runs_start b)|]; lia.
Qed.

(** The two parts of [splitContentBySubheadings] concatenate to the
    content, and their word counts add up to one or two more than the
    word count of the whole content. *)
Theorem split_word_counts (re : jstr -> jstr -> option Z) (content : jstr)
    (subs : list (option json)) (a b : jstr) :
  splitContentBySubheadings re content subs = inl (a, b) ->
  a ++ b = content /\
  (S (word_count content) <= word_count a + word_count b <= S (S (word_count content)))%nat.
Proof.
  intros H. pose proof (splitContent_app re content subs a b H) as Hc.
  split; [exact Hc|]. rewrite <- Hc. apply word_count_app.
Qed.

(** The [bodyWordCount] and [bodyImageTextWordCount] of a successful
    answer add up to one or two more than the word count of the
    [articleBody] string of the LLM reply. *)
Theorem generated_word_counts (tl : jstr -> jstr) (re : jstr -> jstr -> option Z) (e : env)
    (body : json) :
  (forall sid sn gd bw biw cc su,
     result (snd (api_generate tl re e body)) = Generated sid sn gd bw biw cc su ->
     exists raw v content,
       env_llm e = LlmReplied raw /\ parseClaudeResponse raw = Parsed v /\
       get_prop v (js "articleBody") = Some (Some (JString content)) /\
       (S (word_count content) <= bw + biw <= S (S (word_count content)))%nat) /\
  (forall aid sid sn gd bw biw ft cc su cats,
     wh_result (snd (api_webhook tl re e body)) = WGenerated aid sid sn gd bw biw ft cc su cats ->
     exists raw v content,
       env_llm e = LlmReplied raw /\ parseClaudeResponse raw = Parsed v /\
       get_prop v (js "articleBody") = Some (Some (JString content)) /\
       (S (word_count content) <= bw + biw <= S (S (word_count content)))%nat).
Proof.
  split; run_handler; intros * Hr; try discriminate Hr;
    injection Hr; intros; subst;
    (do 3 eexists; split; [first [eassumption | reflexivity]|];
     split; [eassumption|]; split; [eassumption|];
     match goal with E : splitContentBySubheadings _ _ _ = inl _ |- _ =>
       rewrite <- (splitContent_app _ _ _ _ _ E); apply word_count_app end).
Qed.

(** The ids [findCategoryIds] returns are at most as many as the
    requested names, and each is the id of a category of the directory. *)
Theorem find_category_ids_some (tl : jstr -> jstr) (r : fetch_result) (names : list json)
    (ids : list N) :
  findCategoryIds tl r names = Some ids ->
  (length ids <= length names)%nat /\
  forall i, In i ids -> exists c, In c (getStrapiCategories r) /\ cat_id c = i.
Proof.
  unfold findCategoryIds. generalize (getStrapiCategories r) as dir. intros dir.
  revert ids. induction names as [|x names IH]; simpl; intros ids H.
  - injection H as <-. simpl. split; [lia|tauto].
  - destruct dir as [|c0 dir'].
    + rewrite resolve_ids_empty_dir in H.
      destruct (to_string_throws x), (existsb to_string_throws names); simpl in H;
        try discriminate H.
      injection H as <-. simpl. split; [lia|tauto].
    + destruct x as [| | | s | |]; try discriminate H.
      destruct (resolve_ids tl (c0 :: dir') names) as [ids'|] eqn:Er; [|discriminate H].
      destruct (IH ids' eq_refl) as [Hl Hi].
      destruct (find_category tl (c0 :: dir') (tl s)) as [c|] eqn:Ef; injection H as <-.
      * simpl. split; [lia|]. intros i [<-|Hin]; [|exact (Hi i Hin)].
        exists c. split; [|reflexivity]. exact (proj1 (find_category_some tl _ _ _ Ef)).
      * split; [lia|exact Hi].
Qed.

Lemma find_category_ids_some_witness :
  findCategoryIds ascii_lower (FetchOk (Some sample_directory))
    [JString (js "tech"); JString (js "Other"); JString (js "MARKETING")] = Some [2; 1]%N /\
  (length [2; 1]%N <= 3)%nat /\
  forall i, In i [2; 1]%N -> exists c, In c sample_directory /\ cat_id c = i.
Proof.
  assert (H : findCategoryIds ascii_lower (FetchOk (Some sample_directory))
                [JString (js "tech"); JString (js "Other"); JString (js "MARKETING")]
              = Some [2; 1]%N) by (vm_compute; reflexivity).
  split; [exact H|]. exact (find_category_ids_some _ _ _ _ H).
Defined.
(** Concrete inputs for the properties above. *)

Definition no_draft : strapi_data := mkStrapiData None None None None None None None None None.

Definition sample_draft : strapi_data :=
  match fst (api_generate ascii_lower literal_regexp_search_i sample_env sample_request) with
  | [_; _; StrapiPost d] => d
  | _ => no_draft
  end.

Lemma written_article_witness :
  In (StrapiPost sample_draft)
     (fst (api_generate ascii_lower literal_regexp_search_i sample_env sample_request)) /\
  exists raw v content a b cats ids,
    env_llm sample_env = LlmReplied raw /\ parseClaudeResponse raw = Parsed v /\
    get_prop v (js "articleBody") = Some (Some (JString content)) /\
    sd_body sample_draft = Some (JString a) /\ sd_bodyImageText sample_draft = Some (JString b) /\
    a ++ b = content /\
    parseCategories (get_field sample_request "category") = Some cats /\
    findCategoryIds ascii_lower (env_categories sample_env) cats = Some ids /\ ids <> [] /\
    sd_categories sample_draft = Some ids /\ sd_publishedAt sample_draft = Some JNull.
Proof.
  assert (H : In (StrapiPost sample_draft)
                (fst (api_generate ascii_lower literal_regexp_search_i sample_env sample_request)))
    by (vm_compute; right; right; left; reflexivity).
  split; [exact H|].
  exact (written_article ascii_lower literal_regexp_search_i sample_env sample_request
           sample_draft (or_introl H)).
Defined.

Definition llm_down_env : env :=
  mkEnv (FetchOk (Some sample_directory)) LlmFailed (CmsCreated (Some (JNumber (js "42"))))
        (js "2026-10-17T09:30:00.000Z").

Lemma llm_failure_no_write_witness :
  env_llm llm_down_env = LlmFailed /\
  (forall d, ~ In (StrapiPost d) (fst (api_generate ascii_lower literal_regexp_search_i
                                         llm_down_env sample_request))) /\
  success (snd (api_generate ascii_lower literal_regexp_search_i llm_down_env sample_request))
  = false /\
  (forall d, ~ In (StrapiPost d) (fst (api_webhook ascii_lower literal_regexp_search_i
                                         llm_down_env sample_request))) /\
  wh_success (snd (api_webhook ascii_lower literal_regexp_search_i llm_down_env sample_request))
  = false /\
  (forall d, ~ In (StrapiPost d) (fst (api_generate_v1 llm_down_env sample_request_v1))) /\
  success (snd (api_generate_v1 llm_down_env sample_request_v1)) = false.
Proof.
  split; [reflexivity|].
  destruct (llm_failure_no_write ascii_lower literal_regexp_search_i llm_down_env sample_request
              eq_refl) as [H1 [H2 [H3 [H4 _]]]].
  destruct (llm_failure_no_write ascii_lower literal_regexp_search_i llm_down_env sample_request_v1
              eq_refl) as [_ [_ [_ [_ [H5 H6]]]]].
  tauto.
Defined.

Definition bad_funnel_request : json :=
  request [fld "headline" (JString (js "X")); fld "summary" (JString (js "Y"));
           fld "category" (JString (js "Marketing")); fld "funnelType" (JString (js "BOF"));
           fld "author" (JString (js "Ann"));
           fld "subheading1" (JString (js "Intro")); fld "subheading2" (JString (js "Body"));
           fld "subheading3" (JString (js "Goal")); fld "subheading4" (JString (js "End"))].

Lemma unknown_funnel_no_llm_witness :
  (forall f, get_field bad_funnel_request "funnelType" = Some f -> prompt_key_ok f = false) /\
  (forall p, ~ In (ClaudePost p) (fst (api_generate ascii_lower literal_regexp_search_i
                                         sample_env bad_funnel_request))) /\
  success (snd (api_generate ascii_lower literal_regexp_search_i sample_env bad_funnel_request))
  = false /\
  (forall p, ~ In (ClaudePost p) (fst (api_webhook ascii_lower literal_regexp_search_i
                                         sample_env bad_funnel_request))) /\
  wh_success (snd (api_webhook ascii_lower literal_regexp_search_i sample_env bad_funnel_request))
  = false /\
  (forall p, ~ In (ClaudePost p) (fst (api_generate_v1 sample_env bad_funnel_request))) /\
  success (snd (api_generate_v1 sample_env bad_funnel_request)) = false.
Proof.
  assert (Hf : forall f, get_field bad_funnel_request "funnelType" = Some f ->
                         prompt_key_ok f = false)
    by (intros f H; vm_compute in H; injection H as <-; vm_compute; reflexivity).
  split; [exact Hf|].
  exact (unknown_funnel_no_llm ascii_lower literal_regexp_search_i sample_env bad_funnel_request Hf).
Defined.

Definition no_id_env : env :=
  mkEnv (FetchOk (Some sample_directory)) (LlmReplied sample_reply) (CmsCreated None)
        (js "2026-10-17T09:30:00.000Z").

Lemma cms_without_id_fails_witness :
  env_cms no_id_env = CmsCreated None /\
  success (snd (api_generate ascii_lower literal_regexp_search_i no_id_env sample_request)) = false /\
  wh_success (snd (api_webhook ascii_lower literal_regexp_search_i no_id_env sample_request)) = false /\
  success (snd (api_generate_v1 no_id_env sample_request_v1)) = false.
Proof.
  split; [reflexivity|].
  destruct (cms_without_id_fails ascii_lower literal_regexp_search_i no_id_env sample_request
              (or_introl eq_refl)) as [H1 [H2 _]].
  destruct (cms_without_id_fails ascii_lower literal_regexp_search_i no_id_env sample_request_v1
              (or_introl eq_refl)) as [_ [_ H3]].
  tauto.
Defined.

Lemma generated_date_is_day_witness :
  env_now sample_env = js "2026-10-17" ++ 84%N :: js "09:30:00.000Z" /\
  ~ In 84%N (js "2026-10-17") /\
  result (snd (api_generate ascii_lower literal_regexp_search_i sample_env sample_request))
  = Generated (JNumber (js "42")) (Some (JString (js "hook"))) (js "2026-10-17") 2 4 2 4 /\
  (forall sid sn gd bw biw cc su,
     result (snd (api_generate ascii_lower literal_regexp_search_i sample_env sample_request))
     = Generated sid sn gd bw biw cc su -> gd = js "2026-10-17").
Proof.
  assert (Hn : env_now sample_env = js "2026-10-17" ++ 84%N :: js "09:30:00.000Z")
    by reflexivity.
  assert (Hd : ~ In 84%N (js "2026-10-17"))
    by (intros Hi; vm_compute in Hi; repeat (destruct Hi as [Hi|Hi]; [discriminate Hi|]); exact Hi).
  split; [exact Hn|]. split; [exact Hd|]. split; [vm_compute; reflexivity|].
  exact (proj1 (generated_date_is_day ascii_lower literal_regexp_search_i sample_env sample_request
                  _ _ Hn Hd)).
Defined.

Lemma webhook_agrees_with_generate_witness :
  (fst (api_webhook ascii_lower literal_regexp_search_i sample_env sample_request),
   wh_status (snd (api_webhook ascii_lower literal_regexp_search_i sample_env sample_request)),
   wh_success (snd (api_webhook ascii_lower literal_regexp_search_i sample_env sample_request)))
  = (fst (api_generate ascii_lower literal_regexp_search_i sample_env sample_request),
     status (snd (api_generate ascii_lower literal_regexp_search_i sample_env sample_request)),
     success (snd (api_generate ascii_lower literal_regexp_search_i sample_env sample_request))) /\
  success (snd (api_generate ascii_lower literal_regexp_search_i sample_env sample_request)) = true.
Proof.
  split; [|vm_compute; reflexivity].
  apply webhook_agrees_with_generate;
    first [ intros v H; vm_compute in H; injection H as <-; reflexivity
          | intros v H; vm_compute in H; discriminate H
          | intros cats H; vm_compute in H; injection H as <-; reflexivity ].
Defined.

Definition split_sample : jstr := js "Opening words ## Goal closing words".

Lemma split_word_counts_witness :
  splitContentBySubheadings literal_regexp_search_i split_sample sample_subheadings
  = inl (js "Opening words ", js "## Goal closing words") /\
  js "Opening words " ++ js "## Goal closing words" = split_sample /\
  (S (word_count split_sample)
   <= word_count (js "Opening words ") + word_count (js "## Goal closing words")
   <= S (S (word_count split_sample)))%nat.
Proof.
  assert (H : splitContentBySubheadings literal_regexp_search_i split_sample sample_subheadings
              = inl (js "Opening words ", js "## Goal closing words")) by (vm_compute; reflexivity).
  split; [exact H|]. exact (split_word_counts _ _ _ _ _ H).
Defined.
